(** * obsidian-custom-commands: markup toggles and the key dispatcher

    A shallow embedding of [src/unnamed/part_000] (the plugin's main
    TypeScript file).  Three parts of the plugin are embedded:

    - [Poll]   : the bounded poll helper [sleepUntil];
    - [Keys]   : the capture-phase listener [keydownListener];
    - [Markup] : [wrapSelection], [toggleTag], [toggleStyle], [toggleLink].

    JavaScript numbers that the code uses as columns, offsets and pixel
    counts are integers here ([Z]); strings are sequences of code units.
    The host (Obsidian editor, CodeMirror view, DOM) is not part of the
    plugin: what the code asks of it is either an input record of the
    embedded function or a small executable model, each introduced where
    it is used. *)

From Stdlib Require Import ZArith List String Ascii Bool Lia.
Import ListNotations.

Open Scope string_scope.
Open Scope list_scope.
Open Scope Z_scope.

(* ================================================================== *)
(** ** The poll helper *)
(* ================================================================== *)

Module Poll.

(** [setInterval(..., 20)] and the default of the [timeoutMs] parameter. *)
Definition pollIntervalMs : Z := 20.
Definition defaultTimeoutMs : Z := 2000.

Section WithValue.

(** The truthy values the polled function can return. *)
Variable V : Type.

(** A call of the promise's [resolve] or [reject]. *)
Inductive Settle : Type :=
| Resolve (v : V)
| Reject (msg : string).

(** The executor's closure: whether [clearInterval(wait)] has run, and
    the calls of [resolve]/[reject] made so far, oldest first. *)
Record PollState : Type := mkPoll {
  cleared : bool;
  settled : list Settle
}.

Definition pending : PollState := mkPoll false [].

(** The polled function reads host state, which changes with time: it
    is a function of the clock reading, [None] standing for any falsy
    result and [Some v] for the truthy value [v]. *)
Variable f : Z -> option V.
Variable timeoutMs : Z.

(** [timeWas] is the clock reading taken when the executor runs. *)
Variable timeWas : Z.

(** One firing of the interval callback at clock reading [now].  A
    cleared interval does not fire any more. *)
Definition fire (st : PollState) (now : Z) : PollState :=
  if cleared st then st
  else
    match f now with
    | Some v => mkPoll true (settled st ++ [Resolve v])
    | None =>
        if now - timeWas >? timeoutMs
        then mkPoll true (settled st ++ [Reject "timed out"])
        else st
    end.

(** The promise after the callback has fired at the given clock
    readings, in that order. *)
Definition sleepUntil (firings : list Z) : PollState :=
  fold_left fire firings pending.

End WithValue.

Arguments Resolve {V} v.
Arguments Reject {V} msg.
Arguments mkPoll {V} _ _.
Arguments cleared {V} _.
Arguments settled {V} _.
Arguments pending {V}.
Arguments fire {V} f timeoutMs timeWas st now.
Arguments sleepUntil {V} f timeoutMs timeWas firings.

(** The timer's ideal schedule: the [k]-th firing happens [20 * k] ms
    after the executor ran. *)
Definition idealFirings (timeWas : Z) (n : nat) : list Z :=
  map (fun k => timeWas + pollIntervalMs * Z.of_nat k) (seq 1 n).

(** A polled function that turns truthy 50 ms after the start. *)
Definition readyAfter50 (t : Z) : option nat :=
  if t >=? 50 then Some 7%nat else None.

End Poll.

(* ================================================================== *)
(** ** The key dispatcher *)
(* ================================================================== *)

Module Keys.

(** *** Events and DOM facts read by the listener *)

Record KeyboardEvent : Type := mkKey {
  key : string;
  ctrlKey : bool;
  altKey : bool;
  metaKey : bool;
  shiftKey : bool
}.

(** [document.activeElement], as far as the listener's selectors look. *)
Record Element : Type := mkElement {
  tagName : string;
  classList : list string;
  role : option string;
  contenteditable : option string
}.

Fixpoint isPrefixOf (p s : string) : bool :=
  match p, s with
  | EmptyString, _ => true
  | String a p', String b s' => Ascii.eqb a b && isPrefixOf p' s'
  | String _ _, EmptyString => false
  end.

Fixpoint isInfixOf (p s : string) : bool :=
  isPrefixOf p s ||
  match s with
  | EmptyString => false
  | String _ s' => isInfixOf p s'
  end.

Definition inList (x : string) (l : list string) : bool :=
  existsb (String.eqb x) l.

(** [el.matches('.c')]. *)
Definition hasClass (c : string) (el : Element) : bool :=
  inList c (classList el).

(** [el.matches('[class*="metadata-input"], [role="textbox"],
    [contenteditable="true"]')].  The needle has no white space, so it
    occurs in the class attribute iff it occurs in one class name. *)
Definition matchesEditable (el : Element) : bool :=
  existsb (isInfixOf "metadata-input") (classList el)
  || match role el with Some r => String.eqb r "textbox" | None => false end
  || match contenteditable el with Some c => String.eqb c "true" | None => false end.

(** The text-input-like test of the pass-through guard. *)
Definition textInputLike (el : Element) : bool :=
  inList (tagName el) ["INPUT"; "TEXTAREA"] || matchesEditable el.

(** *** Host objects reachable from the active leaf *)

Record TFile : Type := mkFile {
  path : string;
  hasChildren : bool;          (* [target.children] is set: a folder *)
  parentPath : string
}.

Record TreeItem : Type := mkItem {
  collapsible : bool;
  file : option TFile;
  innerText : string           (* [innerEl.textContent] *)
}.

Record Tree : Type := mkTree {
  focusedItem : option TreeItem;
  vChildren : list TreeItem;   (* [infinityScroll.rootEl.vChildren._children] *)
  treeScrollHeight : Z         (* [containerEl.scrollHeight] *)
}.

(** [view.containerEl] and what the listener queries under it. *)
Record Pane : Type := mkPane {
  inSideDock : bool;           (* [closest('.mod-sidedock')] *)
  beingRenamed : bool;         (* [querySelector('.has-focus.is-being-renamed')] *)
  inLeftSplit : bool;
  inRightSplit : bool;
  hasSortButton : bool;
  hasSearchButton : bool;
  hasCollapseAll : bool;
  hasExpandAll : bool
}.

(** [activeLeaf.tabHeaderEl] and its neighbours. *)
Record TabHeader : Type := mkTab {
  hasPreviousSibling : bool;
  hasNextSibling : bool
}.

Record MetadataEditor : Type := mkMeta {
  hasPropertyFocused : bool;
  selectedLines : list string;
  focusedProperty : option string   (* [rendered.find(...)] *)
}.

Record Canvas : Type := mkCanvas {
  selection : list string;
  nodes : list string;
  translate : option (Z * Z)   (* the [(Xpx, Ypx)] tail of the transform *)
}.

(** The scrolled element of a preview-like view. *)
Record Viewport : Type := mkViewport {
  scrollTop : Z;
  scrollHeight : Z;
  scrollWidth : Z
}.

Record Popover : Type := mkPopover {
  leafFilePath : option string   (* [p.leaves()[0].view.file.path] *)
}.

Record View : Type := mkView {
  viewType : string;
  tree : option Tree;
  containerEl : option Pane;
  metadataEditor : option MetadataEditor;
  canvas : option Canvas;
  mode : string;                 (* [getMode()] of a markdown view *)
  viewport : option Viewport     (* the element bound to [v] *)
}.

Record Leaf : Type := mkLeaf {
  view : View;
  tabHeaderEl : option TabHeader
}.

(** Everything the listener reads besides the event. *)
Record Env : Type := mkEnv {
  activeLeaf : option Leaf;
  activeElement : option Element;
  basePath : string;
  overlayPresent : bool;         (* [.jl.popover, .vimium-marker] *)
  confirmationOpen : bool;       (* [.mod-confirmation] *)
  confirmationButton : bool;     (* [.mod-confirmation button.mod-warning] *)
  hoverEditor : option (list Popover)
}.

(** *** Effects *)

Inductive Target : Type := OnDocument | OnPane | OnViewport.

Inductive Clicked : Type :=
| TabPrevious | TabLast | TabNext | TabFirst
| ActiveEl | ConfirmWarning
| SortButton | SearchButton | CollapseAllButton | ExpandAllButton
| PdfZoomIn | PdfZoomOut.

Inductive TreeMethod : Type :=
| OnKeyArrowLeft | OnKeyArrowDown | OnKeyArrowUp | OnKeyOpen
| HandleDeleteSelectedItems | HandleRenameFocusedItem.

Inductive Action : Type :=
| PreventDefault
| ClipboardWrite (text : string)
| Notify (msg : string)
| DispatchKeydown (on : Target) (k : string) (withMeta : bool)
| Click (what : Clicked)
| TreeCall (m : TreeMethod)
| ToggleCollapsed
| SetFocusedItem (item : option TreeItem)
| TreeScrollTo (top : Z)
| ExecuteCommand (id : string)
| RemoveProperties (props : list (option string))
| CreateNew (folder : bool) (inPath : string)
| SetActiveLeaf
| HidePopover
| SpawnPopover
| PopoverOpenFile (file : option TFile)
| CanvasSelect (node : option string)
| CanvasSetTranslate (xy : option (Z * Z))
| CanvasDeleteSelection
| StartEditing (node : string)
| ScrollByTop (top : Z)
| ScrollByLeft (left : Z).

(** How a run of statements ends: falls through with a value, executes
    [return], or throws a [TypeError]. *)
Inductive Ending (A : Type) : Type :=
| Next (a : A)
| Returned
| TypeError.
Arguments Next {A} a.
Arguments Returned {A}.
Arguments TypeError {A}.

(** The effects performed, in order, and the ending. *)
Definition M (A : Type) : Type := (list Action * Ending A)%type.

Definition ret {A} (a : A) : M A := ([], Next a).
Definition emit (a : Action) : M unit := ([a], Next tt).
Definition exit {A} : M A := ([], Returned).
Definition throw {A} : M A := ([], TypeError).

Definition bind {A B} (m : M A) (k : A -> M B) : M B :=
  match snd m with
  | Next a => (fst m ++ fst (k a), snd (k a))
  | Returned => (fst m, Returned)
  | TypeError => (fst m, TypeError)
  end.

Notation "x <- m ;; k" := (bind m (fun x => k))
  (at level 61, m at next level, right associativity).
Notation "m ;; k" := (bind m (fun _ => k))
  (at level 61, right associativity).

(** Reading a property of a value that may be [undefined]/[null]. *)
Definition deref {A} (o : option A) : M A :=
  match o with
  | Some a => ret a
  | None => throw
  end.

Definition when (b : bool) (m : M unit) : M unit :=
  if b then m else ret tt.

(** [el?.click()] on the result of a [querySelector]. *)
Definition clickIf (present : bool) (what : Clicked) : M unit :=
  when present (emit (Click what)).

Definition keyIs (e : KeyboardEvent) (k : string) : bool :=
  String.eqb (key e) k.

Definition keyIn (e : KeyboardEvent) (ks : list string) : bool :=
  inList (key e) ks.

(** [e.defaultPrevented] once the listener is done. *)
Definition isPreventDefault (a : Action) : bool :=
  match a with PreventDefault => true | _ => false end.

Definition defaultPrevented {A} (m : M A) : bool :=
  existsb isPreventDefault (fst m).

(** *** The listener *)

(** [tree.focusedItem.file] and [tree.focusedItem.file.path]. *)
Definition fileOfFocused (tr : option Tree) : M (option TFile) :=
  t <- deref tr ;;
  i <- deref (focusedItem t) ;;
  ret (file i).

Definition pathOfFocused (tr : option Tree) : M string :=
  f <- fileOfFocused tr ;;
  fl <- deref f ;;
  ret (path fl).

(** [s.replace(/\.md$/, '')]. *)
Fixpoint stripMd (s : string) : string :=
  match s with
  | EmptyString => EmptyString
  | String c s' => if String.eqb s ".md" then EmptyString else String c (stripMd s')
  end.

Definition activeMatches (env : Env) (c : string) : bool :=
  match activeElement env with
  | Some el => hasClass c el
  | None => false
  end.

Definition treeLikeExcluded : list string :=
  ["markdown"; "kanban"; "canvas"; "lineage"; "pdf"; "empty"; "bases"].

Definition toggleLeft : M unit := emit (ExecuteCommand "app:toggle-left-sidebar").

(** The [switch (e.key)] of the sidebar branch. *)
Definition sidebarKeys (env : Env) (e : KeyboardEvent) (v : View) (pane : Pane)
  : M unit :=
  let tr := tree v in
  let isFE := String.eqb (viewType v) "file-explorer" in
  if keyIs e "h" then
    match tr with Some _ => emit (TreeCall OnKeyArrowLeft) | None => ret tt end
  else if keyIn e ["j"; "J"] then
    match tr with Some _ => emit (TreeCall OnKeyArrowDown) | None => ret tt end
  else if keyIn e ["k"; "K"] then
    match tr with Some _ => emit (TreeCall OnKeyArrowUp) | None => ret tt end
  else if keyIn e ["l"; "o"] then
    match tr with
    | Some t =>
        focused <- deref (focusedItem t) ;;
        if collapsible focused then
          if keyIs e "o" || isFE then emit ToggleCollapsed
          else emit (TreeCall OnKeyOpen)
        else
          emit (TreeCall OnKeyOpen) ;;
          when isFE toggleLeft
    | None => ret tt
    end
  else if keyIn e ["L"; "O"] then
    emit (DispatchKeydown OnPane "Enter" true) ;;
    when isFE toggleLeft
  else if keyIs e "d" then
    when isFE
      (if confirmationOpen env then
         if confirmationButton env then emit (Click ConfirmWarning) else throw
       else
         _ <- deref tr ;;
         emit (TreeCall HandleDeleteSelectedItems))
  else if keyIs e "r" then
    when isFE (_ <- deref tr ;; emit (TreeCall HandleRenameFocusedItem))
  else if keyIn e ["a"; "A"] then
    when isFE
      (target <- fileOfFocused tr ;;
       match target with
       | Some t =>
           (* the [.then] continuation runs after the listener returned *)
           emit (CreateNew (shiftKey e)
                   (if hasChildren t then path t else parentPath t))
       | None => ret tt
       end)
  else if keyIs e "P" then
    when isFE
      (pops <- deref (hoverEditor env) ;;
       match pops with
       | [p] =>
           lp <- deref (leafFilePath p) ;;
           fp <- pathOfFocused tr ;;
           if String.eqb lp fp then emit SetActiveLeaf ;; exit
           else emit HidePopover
       | _ => fold_right (fun _ k => emit HidePopover ;; k) (ret tt) pops
       end ;;
       emit SpawnPopover ;;
       f <- fileOfFocused tr ;;
       emit (PopoverOpenFile f))
  else if keyIs e "y" then
    text <- (if isFE then
               p <- pathOfFocused tr ;; ret (stripMd p)
             else
               t <- deref tr ;;
               i <- deref (focusedItem t) ;;
               ret (innerText i)) ;;
    emit (ClipboardWrite text) ;;
    emit (Notify (String.append "Yanked: " text))
  else if keyIs e "Y" then
    when isFE
      (p <- pathOfFocused tr ;;
       let text := String.append (basePath env) (String.append "/" p) in
       emit (ClipboardWrite text) ;;
       emit (Notify (String.append "Yanked: " text)))
  else if keyIs e "g" then
    t <- deref tr ;;
    emit (TreeScrollTo 0) ;;
    emit (SetFocusedItem (hd_error (vChildren t)))
  else if keyIs e "G" then
    t <- deref tr ;;
    emit (TreeScrollTo (treeScrollHeight t)) ;;
    emit (SetFocusedItem (hd_error (rev (vChildren t))))
  else if keyIs e "q" then
    if inLeftSplit pane then toggleLeft
    else if inRightSplit pane then emit (ExecuteCommand "app:toggle-right-sidebar")
    else ret tt
  else if keyIs e "S" then clickIf (hasSortButton pane) SortButton
  else if keyIs e "/" then clickIf (hasSearchButton pane) SearchButton
  else if keyIs e "{" then clickIf (hasCollapseAll pane) CollapseAllButton
  else if keyIs e "}" then clickIf (hasExpandAll pane) ExpandAllButton
  else ret tt.

(** The [commands] table of the empty view. *)
Definition emptyCommands (k : string) : option string :=
  if String.eqb k "e" then Some "file-explorer:new-file"
  else if String.eqb k "f" then
    Some "obsidian-another-quick-switcher:search-command_recommended-search"
  else if String.eqb k "g" then Some "omnisearch:show-modal"
  else if String.eqb k "r" then
    Some "obsidian-another-quick-switcher:search-command_recent-search"
  else if String.eqb k "q" then Some "obsidian-custom-commands:close"
  else None.

Definition emptyKeys (e : KeyboardEvent) : M unit :=
  match emptyCommands (key e) with
  | Some c => emit PreventDefault ;; emit (ExecuteCommand c)
  | None => ret tt
  end.

(** The [map] of the canvas branch's first case group. *)
Definition canvasCommand (k : string) : string :=
  if String.eqb k "j" then "navigate-down"
  else if String.eqb k "k" then "navigate-up"
  else if String.eqb k "h" then "navigate-left"
  else if String.eqb k "l" then "navigate-right"
  else if String.eqb k "t" then "create-text-node"
  else if String.eqb k "f" then "create-file-node"
  else "zoom-to-selection".

Definition canvasCommandKeys : list string :=
  ["j"; "k"; "h"; "l"; "t"; "f"; "z"].

(** The replacement callback of the pan case: a step of ten pixels. *)
Definition pan (k : string) (xy : Z * Z) : Z * Z :=
  let (x, y) := xy in
  if String.eqb k "J" then (x, y - 10)
  else if String.eqb k "K" then (x, y + 10)
  else if String.eqb k "H" then (x + 10, y)
  else if String.eqb k "L" then (x - 10, y)
  else (x, y).

(** The [switch (e.key)] of the canvas branch; its value is [command]. *)
Definition canvasSwitch (e : KeyboardEvent) (v : View) (pane : Pane)
  : M (option string) :=
  if keyIn e canvasCommandKeys then
    c <- deref (canvas v) ;;
    when (Nat.eqb (List.length (selection c)) 0)
      (emit (CanvasSelect (hd_error (nodes c)))) ;;
    ret (Some (String.append "advanced-canvas:" (canvasCommand (key e))))
  else if keyIn e ["J"; "K"; "H"; "L"] then
    c <- deref (canvas v) ;;
    emit (CanvasSetTranslate (option_map (pan (key e)) (translate c))) ;;
    ret None
  else if keyIs e "d" then
    _ <- deref (canvas v) ;;
    emit CanvasDeleteSelection ;;
    ret None
  else if keyIs e "i" then
    c <- deref (canvas v) ;;
    match hd_error (selection c) with
    | Some n => emit (StartEditing n)
    | None => ret tt
    end ;;
    ret None
  else if keyIs e "/" then
    clickIf (hasSearchButton pane) SearchButton ;;
    ret None
  else ret None.

Definition canvasKeys (e : KeyboardEvent) (v : View) (pane : Pane) : M unit :=
  command <- canvasSwitch e v pane ;;
  match command with
  | Some c => emit PreventDefault ;; emit (ExecuteCommand c)
  | None => ret tt
  end.

(** The four variables the preview branch's switch may assign. *)
Record Resolved : Type := mkResolved {
  top : option Z;
  left : option Z;
  command : option string;
  event : option string
}.

Definition unresolved : Resolved := mkResolved None None None None.
Definition withTop (z : Z) : Resolved := mkResolved (Some z) None None None.
Definition withLeft (z : Z) : Resolved := mkResolved None (Some z) None None.
Definition withCommand (c : string) : Resolved := mkResolved None None (Some c) None.
Definition withEvent (k : string) : Resolved := mkResolved None None None (Some k).

(** The [switch (e.key)] of the preview branch. *)
Definition previewSwitch (e : KeyboardEvent) (type : string)
  (v : option Viewport) : M Resolved :=
  if keyIs e "j" then ret (withTop 5)
  else if keyIs e "k" then ret (withTop (-5))
  else if keyIs e "d" then ret (withTop 200)
  else if keyIs e "u" then ret (withTop (-200))
  else if keyIs e "f" then ret (withEvent "PageDown")
  else if keyIs e "b" then ret (withEvent "PageUp")
  else if keyIs e "g" then el <- deref v ;; ret (withTop (- scrollTop el))
  else if keyIs e "G" then el <- deref v ;; ret (withTop (scrollHeight el))
  else if keyIs e "h" then ret (withLeft (-15))
  else if keyIs e "H" then el <- deref v ;; ret (withLeft (- scrollWidth el))
  else if keyIs e "l" then ret (withLeft 15)
  else if keyIs e "L" then el <- deref v ;; ret (withLeft (scrollWidth el))
  else if keyIn e ["q"; "i"] then
    if String.eqb type "markdown" then ret (withCommand "markdown:toggle-preview")
    else ret unresolved
  else if keyIs e "[" then ret (withCommand "app:go-back")
  else if keyIs e "]" then ret (withCommand "app:go-forward")
  else if keyIs e "/" then ret (withCommand "editor:open-search")
  else if keyIs e "+" then
    when (String.eqb type "pdf") (emit (Click PdfZoomIn)) ;; ret unresolved
  else if keyIs e "-" then
    when (String.eqb type "pdf") (emit (Click PdfZoomOut)) ;; ret unresolved
  else ret unresolved.

(** Truthiness of a [number | undefined]. *)
Definition truthyNum (o : option Z) : option Z :=
  match o with
  | Some z => if z =? 0 then None else Some z
  | None => None
  end.

(** The [if (top) ... else if (left) ... else if (command) ... else if
    (event) ...] chain. *)
Definition previewAct (r : Resolved) (v : option Viewport) : M unit :=
  match truthyNum (top r) with
  | Some t =>
      emit PreventDefault ;;
      match v with Some _ => emit (ScrollByTop t) | None => ret tt end
  | None =>
      match truthyNum (left r) with
      | Some l =>
          emit PreventDefault ;;
          match v with Some _ => emit (ScrollByLeft l) | None => ret tt end
      | None =>
          match command r with
          | Some c => emit PreventDefault ;; emit (ExecuteCommand c)
          | None =>
              match event r with
              | Some k =>
                  emit PreventDefault ;;
                  match v with
                  | Some _ => emit (DispatchKeydown OnViewport k false)
                  | None => ret tt
                  end
              | None => ret tt
              end
          end
      end
  end.

Definition previewKeys (env : Env) (e : KeyboardEvent) (vw : View) : M unit :=
  let type := viewType vw in
  (* the [switch (type)] binding [v] *)
  v <- (if String.eqb type "kanban" then
          if activeMatches env "cm-content" then exit else ret (viewport vw)
        else ret (viewport vw)) ;;
  r <- previewSwitch e type v ;;
  previewAct r v.

Definition isPreviewLike (vw : View) : bool :=
  (String.eqb (viewType vw) "markdown" && String.eqb (mode vw) "preview")
  || inList (viewType vw) ["pdf"; "kanban"; "bases"].

(** The switch on the view type. *)
Definition viewDispatch (env : Env) (e : KeyboardEvent) (vw : View) (pane : Pane)
  : M unit :=
  if negb (inList (viewType vw) treeLikeExcluded) then
    emit PreventDefault ;;
    sidebarKeys env e vw pane
  else if String.eqb (viewType vw) "empty" then emptyKeys e
  else if String.eqb (viewType vw) "canvas" then canvasKeys e vw pane
  else if isPreviewLike vw then previewKeys env e vw
  else ret tt.

(** First guard: Cmd+C in the file explorer. *)
Definition copyShortcut (e : KeyboardEvent) (vw : View) : bool :=
  metaKey e && keyIs e "c" && String.eqb (viewType vw) "file-explorer".

(** Second guard: Ctrl+J / Ctrl+K in a prompt input. *)
Definition promptShortcut (env : Env) (e : KeyboardEvent) : bool :=
  activeMatches env "prompt-input" && keyIn e ["j"; "k"] && ctrlKey e.

(** Third guard: Ctrl+N / Ctrl+P in a side dock pane. *)
Definition dockShortcut (e : KeyboardEvent) (vw : View) : bool :=
  match containerEl vw with Some p => inSideDock p | None => false end
  && keyIn e ["n"; "p"] && ctrlKey e.

(** The remaining disjuncts of the pass-through guard, the two element
    tests apart. *)
Definition passThroughRest (env : Env) (e : KeyboardEvent) (vw : View) : bool :=
  overlayPresent env
  || match containerEl vw with Some p => beingRenamed p | None => true end
  || ctrlKey e || altKey e || metaKey e.

(** [view.metadataEditor?.hasPropertyFocused()], with the editor. *)
Definition propertyFocused (vw : View) : option MetadataEditor :=
  match metadataEditor vw with
  | Some ed => if hasPropertyFocused ed then Some ed else None
  | None => None
  end.

Definition removeSelected (ed : MetadataEditor) : M unit :=
  emit (RemoveProperties
          (match selectedLines ed with
           | [] => [focusedProperty ed]
           | ls => map Some ls
           end)).

Definition keydownListener (env : Env) (e : KeyboardEvent) : M unit :=
  match activeLeaf env with
  | None => exit
  | Some leaf =>
      let vw := view leaf in
      (if copyShortcut e vw then
         p <- pathOfFocused (tree vw) ;;
         emit (ClipboardWrite (String.append (basePath env) (String.append "/" p))) ;;
         exit
       else ret tt) ;;
      pane <- (if promptShortcut env e then
                 emit PreventDefault ;;
                 emit (DispatchKeydown OnDocument
                         (if keyIs e "j" then "arrowdown" else "arrowup") false) ;;
                 exit
               else if dockShortcut e vw then
                 tab <- deref (tabHeaderEl leaf) ;;
                 (if keyIs e "p" then
                    emit (Click (if hasPreviousSibling tab then TabPrevious else TabLast))
                  else
                    emit (Click (if hasNextSibling tab then TabNext else TabFirst))) ;;
                 exit
               else
                 ae <- deref (activeElement env) ;;
                 if textInputLike ae || passThroughRest env e vw then exit
                 else deref (containerEl vw)) ;;
      (match propertyFocused vw with
       | Some ed => when (keyIs e "d") (removeSelected ed) ;; exit
       | None =>
           if activeMatches env "metadata-properties-heading" then
             when (keyIn e ["l"; "o"]) (emit (Click ActiveEl)) ;; exit
           else ret tt
       end) ;;
      viewDispatch env e vw pane
  end.

(** The event gets past every guard to the switch on the view type. *)
Definition reachesDispatch (env : Env) (e : KeyboardEvent) : bool :=
  match activeLeaf env, activeElement env with
  | Some leaf, Some ae =>
      let vw := view leaf in
      negb (copyShortcut e vw)
      && negb (promptShortcut env e)
      && negb (dockShortcut e vw)
      && negb (textInputLike ae || passThroughRest env e vw)
      && match propertyFocused vw with Some _ => false | None => true end
      && negb (activeMatches env "metadata-properties-heading")
  | _, _ => false
  end.

(** One of the three shortcuts that precede the pass-through guard. *)
Definition earlyShortcut (env : Env) (e : KeyboardEvent) : bool :=
  match activeLeaf env with
  | Some leaf =>
      copyShortcut e (view leaf) || promptShortcut env e || dockShortcut e (view leaf)
  | None => false
  end.

(** One branch of the preview chain is taken. *)
Definition resolves (r : Resolved) : bool :=
  match truthyNum (top r), truthyNum (left r), command r, event r with
  | None, None, None, None => false
  | _, _, _, _ => true
  end.

Definition isSome {A} (o : option A) : bool :=
  match o with Some _ => true | None => false end.

(** *** Sample inputs *)

Definition promptInput : Element :=
  mkElement "INPUT" ["prompt-input"] None None.

Definition bodyEl : Element := mkElement "BODY" [] None None.

Definition plainPane : Pane :=
  mkPane false false false false false false false false.

(** A view of the given type with a pane and nothing else. *)
Definition someView (type : string) : View :=
  mkView type None (Some plainPane) None None "source" None.

Definition emptyCanvas : Canvas := mkCanvas [] [] None.

Definition canvasView : View :=
  mkView "canvas" None (Some plainPane) None (Some emptyCanvas) "source" None.

Definition envWith (vw : View) (ae : Element) : Env :=
  mkEnv (Some (mkLeaf vw None)) (Some ae) "/vault" false false false None.

Definition ctrlJ : KeyboardEvent := mkKey "j" true false false false.

Definition plainKey (k : string) : KeyboardEvent :=
  mkKey k false false false false.

(** *** More sample inputs and notions *)

Definition altKeyEvent (k : string) : KeyboardEvent := mkKey k false true false false.

Definition propertyView : View :=
  mkView "markdown" None (Some plainPane)
    (Some (mkMeta true ["tags"; "aliases"] None)) None "source" None.

Definition threw {A} (m : M A) : bool :=
  match snd m with TypeError => true | _ => false end.

Definition pdfView (v : option Viewport) : View :=
  mkView "pdf" None (Some plainPane) None None "source" v.

(** A bases view in which the query for [.bases-view] finds nothing. *)
Definition basesView : View :=
  mkView "bases" None (Some plainPane) None None "source" None.

End Keys.

(* ================================================================== *)
(** ** The markup toggle engine *)
(* ================================================================== *)

Module Markup.

(** *** JavaScript strings *)

(** A string is its sequence of code units; the units are 8-bit here,
    which covers every delimiter and pattern of the plugin. *)
Definition str : Type := list ascii.

Definition lit (s : string) : str := list_ascii_of_string s.

Definition len (s : str) : Z := Z.of_nat (List.length s).

(** The relative-index rule of [String.prototype.slice]. *)
Definition relIndex (n i : Z) : Z :=
  if i <? 0 then Z.max (n + i) 0 else Z.min i n.

(** [s.slice(start, stop)]. *)
Definition slice (s : str) (start stop : Z) : str :=
  let a := relIndex (len s) start in
  let b := relIndex (len s) stop in
  firstn (Z.to_nat (b - a)) (skipn (Z.to_nat a) s).

(** [s.slice(start)]. *)
Definition sliceFrom (s : str) (start : Z) : str :=
  skipn (Z.to_nat (relIndex (len s) start)) s.

Fixpoint isPrefix (p s : str) : bool :=
  match p, s with
  | [], _ => true
  | a :: p', b :: s' => Ascii.eqb a b && isPrefix p' s'
  | _ :: _, [] => false
  end.

Fixpoint strEqb (a b : str) : bool :=
  match a, b with
  | [], [] => true
  | x :: a', y :: b' => Ascii.eqb x y && strEqb a' b'
  | _, _ => false
  end.

(** What [.] does not match. *)
Definition isLineTerminator (c : ascii) : bool :=
  Ascii.eqb c "010"%char || Ascii.eqb c "013"%char.

(** The result of a successful [match]/[exec]: [index], [m[0]], [m[1]]. *)
Record Match : Type := mkMatch {
  index : Z;
  whole : str;
  group1 : str
}.

(** Leftmost position at which [here] matches, counting from [i]. *)
Fixpoint search (here : str -> option (str * str)) (s : str) (i : Z)
  : option Match :=
  match here s with
  | Some (w, g) => Some (mkMatch i w g)
  | None =>
      match s with
      | [] => None
      | _ :: s' => search here s' (i + 1)
      end
  end.

(** *** The patterns of [toggleTag]

    The tag name is spliced into the pattern unescaped; the plugin only
    passes the name [u], and names are read literally here. *)

Definition openTag (tagName : str) : str := lit "<" ++ tagName ++ lit ">".
Definition closeTag (tagName : str) : str := lit "</" ++ tagName ++ lit ">".

(** [.*p] matches at the start of [s]. *)
Fixpoint dotStarThen (p s : str) : bool :=
  isPrefix p s ||
  match s with
  | [] => false
  | c :: s' => negb (isLineTerminator c) && dotStarThen p s'
  end.

(** [<tag>(?!.*</tag>)] at the start of [s]. *)
Definition checkTagOpenAt (tagName s : str) : option (str * str) :=
  if isPrefix (openTag tagName) s
     && negb (dotStarThen (closeTag tagName)
                (skipn (List.length (openTag tagName)) s))
  then Some (openTag tagName, [])
  else None.

(** The closing pattern at the start of [s]: a negative lookahead for
    the opening tag followed by anything, then the closing tag. *)
Definition checkTagCloseAt (tagName s : str) : option (str * str) :=
  if negb (isPrefix (openTag tagName) s) && isPrefix (closeTag tagName) s
  then Some (closeTag tagName, [])
  else None.

Definition checkTagOpen (tagName s : str) : option Match :=
  search (checkTagOpenAt tagName) s 0.

Definition checkTagClose (tagName s : str) : option Match :=
  search (checkTagCloseAt tagName) s 0.

(** *** The patterns of [toggleLink] *)

(** The run of units before the first [stop], and what follows it. *)
Fixpoint upTo (stop : ascii) (s : str) : option (str * str) :=
  match s with
  | [] => None
  | c :: s' =>
      if Ascii.eqb c stop then Some ([], s')
      else
        match upTo stop s' with
        | Some (run, rest) => Some (c :: run, rest)
        | None => None
        end
  end.

(** The markdown link pattern at the start of [s]: an opening bracket,
    a group of units other than the closing bracket, the closing bracket,
    and a parenthesised run of units other than the closing parenthesis. *)
Definition mdLinkAt (s : str) : option (str * str) :=
  match s with
  | c :: r =>
      if Ascii.eqb c "["%char then
        match upTo "]"%char r with
        | Some (text, c2 :: r2) =>
            if Ascii.eqb c2 "("%char then
              match upTo ")"%char r2 with
              | Some (url, _) =>
                  Some (lit "[" ++ text ++ lit "](" ++ url ++ lit ")", text)
              | None => None
              end
            else None
        | _ => None
        end
      else None
  | [] => None
  end.

(** The lazy [.*?] followed by two closing brackets. *)
Fixpoint lazyToClose (s : str) : option str :=
  if isPrefix (lit "]]") s then Some []
  else
    match s with
    | [] => None
    | c :: s' =>
        if isLineTerminator c then None
        else option_map (cons c) (lazyToClose s')
    end.

(** [\[\[(.*?)\]\]] at the start of [s]. *)
Definition wikiLinkAt (s : str) : option (str * str) :=
  if isPrefix (lit "[[") s then
    match lazyToClose (skipn 2 s) with
    | Some inner => Some (lit "[[" ++ inner ++ lit "]]", inner)
    | None => None
    end
  else None.

(** [s.includes('|')] and [s.split('|')[1]]. *)
Definition hasPipe (s : str) : bool :=
  existsb (Ascii.eqb "|"%char) s.

Definition afterPipe (s : str) : str :=
  match upTo "|"%char s with
  | Some (_, rest) =>
      match upTo "|"%char rest with
      | Some (part, _) => part
      | None => rest
      end
  | None => []
  end.

(** *** The pattern of the comment collapse: [/^<!-- *| *-->$/g] *)

Fixpoint dropSpaces (s : str) : str :=
  match s with
  | c :: s' => if Ascii.eqb c " "%char then dropSpaces s' else s
  | [] => []
  end.

(** The first alternative can only match at offset 0. *)
Definition stripCommentOpen (s : str) : str :=
  if isPrefix (lit "<!--") s then dropSpaces (skipn 4 s) else s.

(** The second alternative matches at the leftmost offset from which
    the input reads: spaces, the closing marker, end of input. *)
Fixpoint stripCommentClose (s : str) : str :=
  if strEqb (dropSpaces s) (lit "-->") then []
  else
    match s with
    | [] => []
    | c :: s' => c :: stripCommentClose s'
    end.

Definition stripComment (s : str) : str :=
  stripCommentClose (stripCommentOpen s).

(** *** The host editor

    The editor is the host's (Obsidian's wrapper around a CodeMirror
    state): a flat document and a selection held as two offsets.  The
    operations below are the ones the plugin calls, with the host's
    clamping of out-of-range positions. *)

Record EditorPosition : Type := mkPos {
  line : Z;
  ch : Z
}.

Record Editor : Type := mkEditor {
  doc : str;
  anchor : Z;
  head : Z
}.

Definition isLF (c : ascii) : bool := Ascii.eqb c "010"%char.

(** Line and column of the [n]-th offset of [d]. *)
Fixpoint locate (d : str) (n : nat) : nat * nat :=
  match n, d with
  | S m, c :: d' =>
      let (l, k) := locate d' m in
      if isLF c then (S l, k)
      else match l with O => (O, S k) | S _ => (l, k) end
  | _, _ => (O, O)
  end.

(** Offset of column [k] of line [l]; a column past the end of the line
    is the end of the line, a line past the last one is the end of [d]. *)
Fixpoint offsetOf (d : str) (l k : nat) : nat :=
  match d with
  | [] => O
  | c :: d' =>
      match l with
      | O =>
          if isLF c then O
          else match k with O => O | S k' => S (offsetOf d' O k') end
      | S l' => S (offsetOf d' (if isLF c then l' else l) k)
      end
  end.

(** Text of line [l], without its line break. *)
Fixpoint lineText (d : str) (l : nat) : str :=
  match d with
  | [] => []
  | c :: d' =>
      match l with
      | O => if isLF c then [] else c :: lineText d' O
      | S l' => lineText d' (if isLF c then l' else l)
      end
  end.

Definition clampOffset (ed : Editor) (o : Z) : Z :=
  Z.max 0 (Z.min o (len (doc ed))).

Definition offsetToPos (ed : Editor) (o : Z) : EditorPosition :=
  let (l, k) := locate (doc ed) (Z.to_nat (clampOffset ed o)) in
  mkPos (Z.of_nat l) (Z.of_nat k).

Definition posToOffset (ed : Editor) (p : EditorPosition) : Z :=
  if line p <? 0 then 0
  else Z.of_nat (offsetOf (doc ed) (Z.to_nat (line p)) (Z.to_nat (Z.max 0 (ch p)))).

Definition getLine (ed : Editor) (l : Z) : str :=
  lineText (doc ed) (Z.to_nat l).

Definition selFrom (ed : Editor) : Z := Z.min (anchor ed) (head ed).
Definition selTo (ed : Editor) : Z := Z.max (anchor ed) (head ed).

(** [getCursor()], [getCursor('from')], [getCursor('to')]. *)
Definition getCursor (ed : Editor) : EditorPosition := offsetToPos ed (head ed).
Definition getCursorFrom (ed : Editor) : EditorPosition := offsetToPos ed (selFrom ed).
Definition getCursorTo (ed : Editor) : EditorPosition := offsetToPos ed (selTo ed).

Definition somethingSelected (ed : Editor) : bool :=
  negb (anchor ed =? head ed).

(** The units of [d] from offset [a] up to offset [b]. *)
Definition between (d : str) (a b : Z) : str :=
  firstn (Z.to_nat (b - a)) (skipn (Z.to_nat a) d).

Definition getSelection (ed : Editor) : str :=
  between (doc ed) (selFrom ed) (selTo ed).

Definition getRange (ed : Editor) (from to : EditorPosition) : str :=
  between (doc ed) (posToOffset ed from) (posToOffset ed to).

(** Where offset [p] lands when the units from [f] to [t] are replaced
    by [ins] units; [assoc] picks the side at an insertion point. *)
Definition mapPos (f t ins assoc p : Z) : Z :=
  if p <? f then p
  else if (p <? t) || ((p =? t) && (assoc <? 0) && (t =? f)) then
    if (p =? f) || (assoc <? 0) then f else f + ins
  else p - (t - f) + ins.

(** The units from [f] to [t] replaced by [text]. *)
Definition splice (d : str) (f t : Z) (text : str) : str :=
  firstn (Z.to_nat f) d ++ text ++ skipn (Z.to_nat (Z.max f t)) d.

(** [replaceRange(text, from, to)]: the change is dispatched without a
    selection of its own, so the host maps the selection through it, a
    caret staying before text inserted at it. *)
Definition replaceRange (ed : Editor) (text : str) (from to : EditorPosition)
  : Editor :=
  let f := posToOffset ed from in
  let t := Z.max f (posToOffset ed to) in
  let d := splice (doc ed) f t text in
  if anchor ed =? head ed then
    let p := mapPos f t (len text) (-1) (head ed) in
    mkEditor d p p
  else if anchor ed <? head ed then
    mkEditor d (mapPos f t (len text) 1 (anchor ed))
               (mapPos f t (len text) (-1) (head ed))
  else
    mkEditor d (mapPos f t (len text) (-1) (anchor ed))
               (mapPos f t (len text) 1 (head ed)).

Definition setSelection (ed : Editor) (a h : EditorPosition) : Editor :=
  mkEditor (doc ed) (posToOffset ed a) (posToOffset ed h).

Definition setCursor (ed : Editor) (p : EditorPosition) : Editor :=
  setSelection ed p p.

(** *** The rendered line

    A rendered span of the line the caret is in: its classes, the extent
    of its view in the document, and the text of its DOM node. *)
Record Span : Type := mkSpan {
  classes : list string;
  posAtStart : Z;
  posAtEnd : Z;
  textContent : str
}.

(** [selection.type] of the DOM selection. *)
Inductive SelectionType : Type := Caret | Range | NoSelection.

(** What the host shows of the rendering when a toggle runs: the DOM
    selection's type, the spans of the caret's line as siblings, the
    span that is the parent of the focus node (if it is a span), and the
    word-boundary lookup. *)
Record Host : Type := mkHost {
  selType : SelectionType;
  spans : list Span;
  focus : option nat;
  wordAt : EditorPosition -> option (EditorPosition * EditorPosition)
}.

Definition spanHas (c : string) (s : Span) : bool :=
  existsb (String.eqb c) (classes s).

Definition cmClass (style : string) : string := String.append "cm-" style.

(** [el?.matches('.cm-S:not(.cm-formatting)')]. *)
Definition isContentOf (style : string) (o : option Span) : bool :=
  match o with
  | Some s => spanHas (cmClass style) s && negb (spanHas "cm-formatting" s)
  | None => false
  end.

(** [el?.matches('.cm-S.cm-formatting')]. *)
Definition isFormattingOf (style : string) (o : option Span) : bool :=
  match o with
  | Some s => spanHas (cmClass style) s && spanHas "cm-formatting" s
  | None => false
  end.

(** [focusNode.parentNode?.closest(sel)] for a selector listing classes:
    the index and the span.  The ancestors of a span are the line and
    the editor's containers, which carry none of the classes asked for. *)
Definition closest (h : Host) (cs : list string) : option (nat * Span) :=
  match focus h with
  | Some i =>
      match nth_error (spans h) i with
      | Some s => if existsb (fun c => spanHas c s) cs then Some (i, s) else None
      | None => None
      end
  | None => None
  end.

Definition sibling (h : Host) (i : nat) (back : bool) (k : nat) : option Span :=
  if back then
    if Nat.leb k i then nth_error (spans h) (i - k) else None
  else nth_error (spans h) (i + k).

Definition unwrap (o : option Span) (dflt : Span) : Span :=
  match o with Some s => s | None => dflt end.

(** The [range] array once the sibling tests have run. *)
Definition collectRange (h : Host) (style : string) (i : nat) (node : Span)
  : list Span :=
  let next := sibling h i false 1 in
  let next2 := sibling h i false 2 in
  let prev := sibling h i true 1 in
  let prev2 := sibling h i true 2 in
  if spanHas "cm-formatting" node then
    if isContentOf style next && isFormattingOf style next2
    then [node; unwrap next node; unwrap next2 node]
    else if isContentOf style prev && isFormattingOf style prev2
    then [node; unwrap prev node; unwrap prev2 node]
    else [node]
  else if isFormattingOf style prev && isFormattingOf style next
  then [node; unwrap prev node; unwrap next node]
  else [node].

(** [range.sort((a, b) => a.posAtStart - b.posAtStart)]; the sort is
    stable. *)
Fixpoint insertSpan (x : Span) (l : list Span) : list Span :=
  match l with
  | [] => [x]
  | y :: l' =>
      if posAtStart x <=? posAtStart y then x :: y :: l'
      else y :: insertSpan x l'
  end.

Definition sortSpans (l : list Span) : list Span :=
  fold_right insertSpan [] l.

(** *** The toggles *)

(** An operation either completes or throws a [TypeError]. *)
Inductive Result (A : Type) : Type :=
| Ok (a : A)
| TypeError.
Arguments Ok {A} a.
Arguments TypeError {A}.

(** [wrapSelection]: the editor afterwards and the returned selection. *)
Definition wrapSelection (h : Host) (beforeStr afterStr : str) (ed : Editor)
  : Editor * option (EditorPosition * EditorPosition) :=
  let pos := getCursor ed in
  let selection := (getCursorFrom ed, getCursorTo ed) in
  let selectedText := getSelection ed in
  let '(pos, selection, selectedText) :=
    if negb (somethingSelected ed) then
      let pos' := mkPos (line pos) (ch pos + len beforeStr) in
      match wordAt h pos with
      | Some (wfrom, wto) => (pos', (wfrom, wto), getRange ed wfrom wto)
      | None => (pos', selection, selectedText)
      end
    else (pos, selection, selectedText) in
  let ed' := replaceRange ed (beforeStr ++ selectedText ++ afterStr)
               (fst selection) (snd selection) in
  if negb (somethingSelected ed') then (ed', Some (pos, pos))
  else (ed', None).

Definition applySelection (r : Editor * option (EditorPosition * EditorPosition))
  : Editor :=
  match snd r with
  | Some (a, h) => setSelection (fst r) a h
  | None => fst r
  end.

(** The two scans of one slicing of the line at column [cut]. *)
Definition scans (tagName line : str) (cut : Z) : option Match * option Match :=
  (checkTagOpen tagName (slice line 0 cut),
   checkTagClose tagName (sliceFrom line cut)).

Definition toggleTag (h : Host) (ed : Editor) (tagName : str) : Editor :=
  let pos := getCursor ed in
  let ln := getLine ed (line pos) in
  let k := len tagName + 1 in
  match scans tagName ln (ch pos + k) with
  | (Some tagOpen, Some tagClose) =>
      let newStr := slice (getLine ed (line pos))
                      (index tagOpen + len (whole tagOpen))
                      (ch pos + k + index tagClose) in
      let ed' := replaceRange ed newStr
                   (mkPos (line pos) (index tagOpen))
                   (mkPos (line pos)
                      (ch pos + k + index tagClose + len (whole tagClose))) in
      let pos' := mkPos (line pos)
                    (ch pos - Z.min (ch pos - index tagOpen) (len (whole tagOpen))) in
      setSelection ed' pos' pos'
  | _ =>
      match scans tagName ln (ch pos - k) with
      | (Some tagOpen, Some tagClose) =>
          let newStr := slice (getLine ed (line pos))
                          (index tagOpen + len (whole tagOpen))
                          (ch pos - k + index tagClose) in
          let ed' := replaceRange ed newStr
                       (mkPos (line pos) (index tagOpen))
                       (mkPos (line pos)
                          (ch pos - k + index tagClose + len (whole tagClose))) in
          let pos' := mkPos (line pos)
                        (ch pos - (Z.max 0 (k - index tagClose)
                                   + len (whole tagOpen))) in
          setSelection ed' pos' pos'
      | _ =>
          applySelection
            (wrapSelection h (openTag tagName) (closeTag tagName) ed)
      end
  end.

(** The [map] table of [toggleStyle]. *)
Definition styleMap (style : string) : option (str * str) :=
  if String.eqb style "strong" then Some (lit "**", lit "**")
  else if String.eqb style "em" then Some (lit "*", lit "*")
  else if String.eqb style "comment" then Some (lit "<!-- ", lit " -->")
  else if String.eqb style "strikethrough" then Some (lit "~~", lit "~~")
  else if String.eqb style "highlight" then Some (lit "==", lit "==")
  else if String.eqb style "inline-code" then Some (lit "`", lit "`")
  else None.

(** What the caret branch finds before it falls back to the word. *)
Inductive Detected : Type :=
| CommentNode (node : Span)
| Triple (r0 r1 r2 : Span)
| Nothing.

(** Sorting keeps the length of [range], so the test of the length is
    made on the sorted array. *)
Definition detect (h : Host) (style : string) : Detected :=
  match closest h [cmClass style] with
  | Some (i, node) =>
      if String.eqb style "comment" then CommentNode node
      else
        match sortSpans (collectRange h style i node) with
        | [r0; r1; r2] => Triple r0 r1 r2
        | _ => Nothing
        end
  | None => Nothing
  end.

(** The part after the branches: [getRange], [replaceRange] and, when
    [cursor] is set, [setCursor].  A style outside the table makes the
    lookup of the delimiters throw. *)
Definition wrapRange (ed : Editor) (style : string)
  (from to : EditorPosition) (cursor : option EditorPosition) : Result Editor :=
  match styleMap style with
  | Some (p, s) =>
      let text := getRange ed from to in
      let ed' := replaceRange ed (p ++ text ++ s) from to in
      match cursor with
      | Some c => Ok (setCursor ed' (mkPos (line c) (ch c + len p)))
      | None => Ok ed'
      end
  | None => TypeError
  end.

Definition toggleStyle (h : Host) (ed : Editor) (style : string) : Result Editor :=
  match selType h with
  | Caret =>
      let cursor := getCursor ed in
      match detect h style with
      | CommentNode node =>
          let from := offsetToPos ed (posAtStart node) in
          let to := offsetToPos ed (posAtEnd node) in
          let text := stripComment (getRange ed from to) in
          Ok (replaceRange ed text from to)
      | Triple r0 r1 r2 =>
          let from := offsetToPos ed (posAtStart r0) in
          let to := offsetToPos ed (posAtEnd r2) in
          let newOffset :=
            Z.min (Z.max (posToOffset ed cursor - len (textContent r0))
                         (posAtStart r0))
                  (posAtStart r2 - len (textContent r0)) in
          let ed' := replaceRange ed (textContent r1) from to in
          Ok (setCursor ed' (offsetToPos ed' newOffset))
      | Nothing =>
          match wordAt h cursor with
          | None => Ok ed
          | Some (wfrom, wto) => wrapRange ed style wfrom wto (Some cursor)
          end
      end
  | _ => wrapRange ed style (getCursorFrom ed) (getCursorTo ed) None
  end.

(** The outcome of one of [toggleLink]'s scanning loops. *)
Inductive Scan : Type :=
| Hit (ed : Editor) (endPos : EditorPosition)
| Miss
| OutOfFuel.

(** The caret after a link collapsed to [text] at column [s]; [skip] is
    the width of the opening bracket(s). *)
Definition caretAfter (c s : Z) (text : str) (skip : Z) : Z :=
  if c >=? s + len text then s + len text - 1
  else if c >? s + skip then c - skip
  else s.

(** The [while (match)] loop of the markdown-link branch; every turn
    moves [x] past a match, so as many turns as the line has units are
    enough. *)
Fixpoint mdLinkLoop (fuel : nat) (ed : Editor) (pos : EditorPosition)
  (ln : str) (x : Z) : Scan :=
  match fuel with
  | O => OutOfFuel
  | S fuel' =>
      match search mdLinkAt (sliceFrom ln x) 0 with
      | None => Miss
      | Some m =>
          let s := x + index m in
          let e := s + len (whole m) in
          if ((ch pos >=? s) && (ch pos <? e)) || ((ch pos >? s) && (ch pos <=? e))
          then
            Hit (replaceRange ed (group1 m) (mkPos (line pos) s) (mkPos (line pos) e))
                (mkPos (line pos) (caretAfter (ch pos) s (group1 m) 1))
          else mdLinkLoop fuel' ed pos ln (x + (index m + len (whole m)))
      end
  end.

(** The loop of the wiki-link branch. *)
Fixpoint wikiLinkLoop (fuel : nat) (ed : Editor) (pos : EditorPosition)
  (ln : str) (x : Z) : Scan :=
  match fuel with
  | O => OutOfFuel
  | S fuel' =>
      match search wikiLinkAt (sliceFrom ln x) 0 with
      | None => Miss
      | Some m =>
          let s := x + index m in
          let e := s + len (whole m) in
          if (ch pos >=? s) && (ch pos <? e) then
            let text := if hasPipe (group1 m) then afterPipe (group1 m)
                        else group1 m in
            Hit (replaceRange ed text (mkPos (line pos) s) (mkPos (line pos) e))
                (mkPos (line pos) (caretAfter (ch pos) s text 2))
          else wikiLinkLoop fuel' ed pos ln (x + (index m + len (whole m)))
      end
  end.

(** [toggleLink]: the editor afterwards, and whether the host command
    [editor:insert-link] was executed. *)
Record LinkOutcome : Type := mkLinkOutcome {
  editor : Editor;
  insertLink : bool
}.

Definition finishScan (ed : Editor) (s : Scan) : option LinkOutcome :=
  match s with
  | Hit ed' endPos => Some (mkLinkOutcome (setCursor ed' endPos) false)
  | Miss => Some (mkLinkOutcome ed false)
  | OutOfFuel => None
  end.

(** [None] stands for a loop that ran out of fuel, which does not
    happen (lemma [toggleLink_total]). *)
Definition toggleLink (h : Host) (ed : Editor) : option (Result LinkOutcome) :=
  let pos := getCursor ed in
  let ln := getLine ed (line pos) in
  let fuel := S (List.length ln) in
  match selType h with
  | NoSelection => Some TypeError      (* [focusNode] is [null] *)
  | _ =>
      match closest h ["cm-link"; "cm-url"] with
      | Some _ => option_map Ok (finishScan ed (mdLinkLoop fuel ed pos ln 0))
      | None =>
          match closest h ["cm-hmd-internal-link"] with
          | Some _ => option_map Ok (finishScan ed (wikiLinkLoop fuel ed pos ln 0))
          | None =>
              let ed' :=
                match selType h with
                | Caret =>
                    match wordAt h pos with
                    | Some (wfrom, wto) => setSelection ed wfrom wto
                    | None => ed
                    end
                | _ => ed
                end in
              Some (Ok (mkLinkOutcome ed' true))
          end
      end
  end.

(** *** Notions used to state the properties *)

(** The selection lies within the document. *)
Definition wfEditor (ed : Editor) : Prop :=
  0 <= anchor ed <= len (doc ed) /\ 0 <= head ed <= len (doc ed).

(** The three spans of a detected construct are rendered next to each
    other inside the document, and the texts of the opening marker and
    of the content have the length of their extents. *)
Definition tripleRendered (ed : Editor) (r0 r1 r2 : Span) : Prop :=
  0 <= posAtStart r0
  /\ posAtEnd r0 = posAtStart r1
  /\ posAtEnd r1 = posAtStart r2
  /\ posAtStart r2 <= posAtEnd r2 <= len (doc ed)
  /\ len (textContent r0) = posAtEnd r0 - posAtStart r0
  /\ len (textContent r1) = posAtEnd r1 - posAtStart r1.

(** The selection is a caret somewhere in the construct. *)
Definition caretIn (ed : Editor) (r0 r2 : Span) : Prop :=
  anchor ed = head ed /\ posAtStart r0 <= head ed <= posAtEnd r2.

(** Both scans of a slicing succeeded. *)
Definition collapses (tagName ln : str) (cut : Z) : bool :=
  match scans tagName ln cut with
  | (Some _, Some _) => true
  | _ => false
  end.

Definition noLineBreak (s : str) : bool :=
  forallb (fun c => negb (isLF c)) s.

(** The range [wrapSelection] wraps, as offsets. *)
Definition wrappedRange (h : Host) (ed : Editor) : Z * Z :=
  if somethingSelected ed then (selFrom ed, selTo ed)
  else
    match wordAt h (getCursor ed) with
    | Some (wfrom, wto) => (posToOffset ed wfrom, posToOffset ed wto)
    | None => (head ed, head ed)
    end.

(** A unit of a plain word: an ASCII letter, a digit or the underscore. *)
Definition wordUnit (c : ascii) : bool :=
  let n := N_of_ascii c in
  ((48 <=? n) && (n <=? 57) || (65 <=? n) && (n <=? 90)
   || (97 <=? n) && (n <=? 122) || (n =? 95))%N.

Definition plainWord (w : str) : bool := forallb wordUnit w.

(** The host renders the wrapped word at offset [a] as a construct of
    the style: a single comment node, or a triple around the content. *)
Definition detectsConstruct (h : Host) (style : string) (a : Z) (p w s : str)
  : Prop :=
  match detect h style with
  | CommentNode n =>
      posAtStart n = a /\ posAtEnd n = a + len p + len w + len s
  | Triple r0 r1 r2 =>
      posAtStart r0 = a /\ posAtEnd r2 = a + len p + len w + len s
      /\ textContent r1 = w
  | Nothing => False
  end.

(** A pattern whose matches are non-empty and fit the input. *)
Definition fits (here : str -> option (str * str)) : Prop :=
  forall s w g, here s = Some (w, g) ->
                (0 < List.length w <= List.length s)%nat.

(** *** Sample inputs *)

Definition formattingOf (style : string) : list string :=
  ["cm-formatting"; String.append "cm-formatting-" style; cmClass style].

Definition noWord : EditorPosition -> option (EditorPosition * EditorPosition) :=
  fun _ => None.

(** The line [a **bold** b] as the host renders it. *)
Definition boldSpans : list Span :=
  [ mkSpan [] 0 2 (lit "a ");
    mkSpan (formattingOf "strong") 2 4 (lit "**");
    mkSpan [cmClass "strong"] 4 8 (lit "bold");
    mkSpan (formattingOf "strong") 8 10 (lit "**");
    mkSpan [] 10 12 (lit " b") ].

Definition boldHost (focused : nat) : Host :=
  mkHost Caret boldSpans (Some focused) noWord.

Definition boldEditor (caret : Z) : Editor :=
  mkEditor (lit "a **bold** b") caret caret.

Definition emptyEditor : Editor := mkEditor [] 0 0.

Definition bareHost (t : SelectionType) : Host := mkHost t [] None noWord.

(** The text [**x**] selected as a whole, rendered as a bold construct. *)
Definition selectedBoldEditor : Editor := mkEditor (lit "**x**") 0 5.

Definition selectedBoldHost : Host :=
  mkHost Range
    [ mkSpan (formattingOf "strong") 0 2 (lit "**");
      mkSpan [cmClass "strong"] 2 3 (lit "x");
      mkSpan (formattingOf "strong") 3 5 (lit "**") ]
    (Some 1%nat) noWord.

(** The line [a <u>b c], caret after [b]: an opening tag and no closing
    tag; the word lookup finds [b]. *)
Definition openOnlyEditor : Editor := mkEditor (lit "a <u>b c") 6 6.

Definition openOnlyHost : Host :=
  mkHost Caret [] None (fun _ => Some (mkPos 0 5, mkPos 0 6)).

(** The line [say word now] before and after the word is made bold. *)
Definition wordEditor : Editor := mkEditor (lit "say word now") 6 6.

Definition wordHost : Host :=
  mkHost Caret [mkSpan [] 0 12 (lit "say word now")] (Some 0%nat)
    (fun _ => Some (mkPos 0 4, mkPos 0 8)).

Definition wrappedHost : Host :=
  mkHost Caret
    [ mkSpan [] 0 4 (lit "say ");
      mkSpan (formattingOf "strong") 4 6 (lit "**");
      mkSpan [cmClass "strong"] 6 10 (lit "word");
      mkSpan (formattingOf "strong") 10 12 (lit "**");
      mkSpan [] 12 16 (lit " now") ]
    (Some 2%nat) noWord.

(** The caret inside the URL of a link. *)
Definition urlHost : Host :=
  mkHost Caret [mkSpan ["cm-string"; "cm-url"] 6 9 (lit "url")] (Some 0%nat) noWord.

(** *** The caret's line, and patterns on it *)

Fixpoint lineBreaks (s : str) : nat :=
  match s with
  | [] => O
  | c :: s' => if isLF c then S (lineBreaks s') else lineBreaks s'
  end.

(** [s] is empty or ends with a line break. *)
Fixpoint endsLine (s : str) : bool :=
  match s with
  | [] => true
  | c :: s' => match s' with [] => isLF c | _ :: _ => endsLine s' end
  end.

(** [s] is empty or starts with a line break. *)
Definition startsLine (s : str) : bool :=
  match s with
  | [] => true
  | c :: _ => isLF c
  end.

(** The document is [top], the line [ln], and [rest]. *)
Definition onLine (ed : Editor) (top ln rest : str) : Prop :=
  doc ed = top ++ ln ++ rest
  /\ endsLine top = true /\ noLineBreak ln = true /\ startsLine rest = true.

(** No unit of [s] is [c]. *)
Definition lacks (c : ascii) (s : str) : bool :=
  forallb (fun x => negb (Ascii.eqb x c)) s.

(** A pattern that can only match where the input starts with [c]. *)
Definition needsFirst (here : str -> option (str * str)) (c : ascii) : Prop :=
  forall s, match s with x :: _ => Ascii.eqb x c = false | [] => True end ->
            here s = None.

(** The source of a markdown link. *)
Definition mdLink (text url : str) : str :=
  lit "[" ++ text ++ lit "](" ++ url ++ lit ")".

(** The source of a wiki link. *)
Definition wikiLink (inner : str) : str := lit "[[" ++ inner ++ lit "]]".

Definition oneLine (s : str) : bool :=
  forallb (fun c => negb (isLineTerminator c)) s.

Definition spaces (n : nat) : str := repeat " "%char n.

(** [s] is empty or ends with a unit other than the space. *)
Fixpoint endsTrimmed (s : str) : bool :=
  match s with
  | [] => true
  | c :: s' =>
      match s' with
      | [] => negb (Ascii.eqb c " ")
      | _ :: _ => endsTrimmed s'
      end
  end.

(** [s] is empty or starts with a unit other than the space. *)
Definition startsTrimmed (s : str) : bool :=
  match s with
  | [] => true
  | c :: _ => negb (Ascii.eqb c " ")
  end.

(** The source of a comment with [a] spaces after the opening marker
    and [b] spaces before the closing one. *)
Definition comment (a b : nat) (body : str) : str :=
  lit "<!--" ++ spaces a ++ body ++ spaces b ++ lit "-->".

(** *** [toggleHeading] *)

(** What the pattern built from the level matches at the start of a
    line: that many hashes and a space. *)
Definition headingPrefix (level : nat) : str :=
  repeat "#"%char level ++ [" "%char].

(** The level handed to the host's [setHeading]; [None] is a call
    without the [level] argument. *)
Definition toggleHeading (ed : Editor) (level : option nat) : nat :=
  let ln := getLine ed (line (getCursor ed)) in
  match level with
  | None => O
  | Some O => O
  | Some n => if isPrefix (headingPrefix n) ln then O else n
  end.

(** *** The footnote post-processor *)

Definition startsWith (p s : str) : bool := isPrefix p s.
Definition endsWith (p s : str) : bool := isPrefix (rev p) (rev s).

(** The text of a footnote link after the post-processor has run. *)
Definition stripFootnote (text : str) : str :=
  if startsWith (lit "[") text && endsWith (lit "]") text
  then slice text 1 (-1)
  else text.

(** *** More sample inputs *)

Definition LF : ascii := "010"%char.

(** Three lines, the second one with an underlined [xyz]; the caret
    after the [x]. *)
Definition taggedEditor : Editor :=
  mkEditor (lit "one" ++ LF :: lit "ab <u>xyz</u> c" ++ LF :: lit "end") 11 11.

(** The line [<u>x</u>] with the caret before the [x], which the word
    lookup finds. *)
Definition shortTagEditor : Editor := mkEditor (lit "<u>x</u>") 3 3.

Definition shortTagHost : Host :=
  mkHost Caret [] None (fun _ => Some (mkPos 0 3, mkPos 0 4)).

(** A bare URL, rendered as one. *)
Definition bareUrlEditor : Editor := mkEditor (lit "see http://x") 6 6.

(** A link on the second line, the caret in its text. *)
Definition linkEditor : Editor :=
  mkEditor (lit "intro" ++ LF :: lit "[label](http://x)") 9 9.

(** A wiki link with an alias, the caret in the target. *)
Definition wikiEditor : Editor := mkEditor (lit "[[Page|alias]]") 4 4.

Definition wikiHost : Host :=
  mkHost Caret [mkSpan ["cm-hmd-internal-link"] 2 12 (lit "Page|alias")]
    (Some 0%nat) noWord.

(** A comment with two spaces after the opening marker. *)
Definition commentEditor : Editor := mkEditor (lit "a <!--  note -->") 9 9.

Definition commentSpan : Span :=
  mkSpan ["cm-comment"] 2 16 (lit "<!--  note -->").

Definition commentHost : Host :=
  mkHost Caret [mkSpan [] 0 2 (lit "a "); commentSpan] (Some 1%nat) noWord.

Definition headingEditor : Editor := mkEditor (lit "## Title") 4 4.

End Markup.

(* ================================================================== *)
(** ** Folding sublists *)
(* ================================================================== *)

Module Listeners.

(** *** [foldSublists] *)

(** The fold indicator of a line. *)
Record FoldIndicator : Type := mkIndicator {
  indicatorId : nat;
  isCollapsed : bool
}.

(** A rendered line of the source view, as far as [foldSublists] looks. *)
Record CmLine : Type := mkLine {
  listItem : bool;                 (* has a [cm-list-] span *)
  indentCount : nat;               (* number of [.cm-indent] elements *)
  indicator : option FoldIndicator
}.

Definition getLevel (l : CmLine) : nat :=
  if listItem l then indentCount l + 1 else 0.

(** The clicked indent: its index among its parent's children, if it has
    a parent, and its line with the previous siblings (nearest first) and
    the next siblings, if it is in a line. *)
Record IndentTarget : Type := mkTarget {
  indexInParent : option nat;
  cmLine : option (list CmLine * CmLine * list CmLine)
}.

Definition withIndicator (l : CmLine) (k : FoldIndicator -> list FoldIndicator)
  (none : list FoldIndicator) : list FoldIndicator :=
  match indicator l with
  | Some i => k i
  | None => none
  end.

(** The first loop: upwards, each indicator put in front. *)
Fixpoint scanUp (level : nat) (before : list CmLine)
  (subLists : list FoldIndicator) : list FoldIndicator :=
  match before with
  | [] => subLists
  | l :: before' =>
      if Nat.ltb level (getLevel l)
      then scanUp level before'
             (withIndicator l (fun i => i :: subLists) subLists)
      else subLists
  end.

(** The second loop: downwards from the line itself, each indicator
    appended. *)
Fixpoint scanDown (level : nat) (lines : list CmLine)
  (subLists : list FoldIndicator) : list FoldIndicator :=
  match lines with
  | [] => subLists
  | l :: lines' =>
      if Nat.ltb level (getLevel l)
      then scanDown level lines'
             (withIndicator l (fun i => subLists ++ [i]) subLists)
      else subLists
  end.

(** The indicators clicked, in order.  Whether an indicator is collapsed
    is what its class list says when the function starts: a click on one
    indicator is taken not to change the class of another. *)
Definition foldSublists (target : IndentTarget) : list FoldIndicator :=
  match indexInParent target with
  | None => []
  | Some i =>
      let level := (i + 1)%nat in
      match cmLine target with
      | None => []
      | Some (before, current, after) =>
          let subLists :=
            scanDown level (current :: after) (scanUp level before []) in
          match subLists with
          | [] => []
          | _ :: _ =>
              let shouldFold :=
                existsb (fun l => negb (isCollapsed l)) subLists in
              filter (fun l => negb (Bool.eqb shouldFold (isCollapsed l))) subLists
          end
      end
  end.

(** *** Notions for the properties *)

Fixpoint takeWhile {A} (f : A -> bool) (l : list A) : list A :=
  match l with
  | [] => []
  | x :: l' => if f x then x :: takeWhile f l' else []
  end.

Definition indicatorsOf (ls : list CmLine) : list FoldIndicator :=
  flat_map (fun l => match indicator l with Some i => [i] | None => [] end) ls.

(** The lines around the clicked one that are deeper than the clicked
    indent, in document order. *)
Definition deeperBlock (level : nat) (before : list CmLine) (current : CmLine)
  (after : list CmLine) : list CmLine :=
  rev (takeWhile (fun l => Nat.ltb level (getLevel l)) before)
  ++ takeWhile (fun l => Nat.ltb level (getLevel l)) (current :: after).

End Listeners.

(* ================================================================== *)
(** ** Properties of the poll helper *)
(* ================================================================== *)

Section PollFacts.
Import Poll.
Context {V : Type}.
Variable f : Z -> option V.
Variables timeoutMs timeWas : Z.

Lemma run_cleared firings st :
  cleared st = true -> fold_left (fire f timeoutMs timeWas) firings st = st.
Proof.
  induction firings as [|now rest IH]; intros Hc; [reflexivity|].
  cbn [fold_left]. unfold fire at 2. rewrite Hc. now apply IH.
Qed.

(** Firings that see a falsy value within the timeout change nothing. *)
Lemma run_waiting firings st :
  cleared st = false ->
  (forall u, In u firings -> f u = None /\ u - timeWas <= timeoutMs) ->
  fold_left (fire f timeoutMs timeWas) firings st = st.
Proof.
  induction firings as [|now rest IH]; intros Hc Hq; [reflexivity|].
  cbn [fold_left]. unfold fire at 2. rewrite Hc.
  destruct (Hq now (or_introl eq_refl)) as [-> Hle].
  destruct (Z.gtb_spec (now - timeWas) timeoutMs); [lia|].
  apply IH; [assumption|]. intros u Hu. apply Hq. now right.
Qed.

Lemma settled_at_most_once firings st :
  (cleared st = false -> settled st = []) ->
  (List.length (settled st) <= 1)%nat ->
  (List.length (settled (fold_left (fire f timeoutMs timeWas) firings st)) <= 1)%nat.
Proof.
  revert st. induction firings as [|now rest IH]; intros st Hp Hl; [assumption|].
  cbn [fold_left]. apply IH; unfold fire.
  - destruct (cleared st) eqn:Hc; [congruence|].
    destruct (f now); [discriminate|].
    destruct (_ >? _); [discriminate|]. cbn. intros _. now apply Hp.
  - destruct (cleared st) eqn:Hc; [assumption|].
    rewrite (Hp eq_refl).
    destruct (f now); [cbn; lia|]. destruct (_ >? _); cbn; lia.
Qed.

Lemma never_rejected t0 firings st :
  t0 - timeWas <= timeoutMs ->
  (forall t, t0 <= t -> f t <> None) ->
  (forall r, In r (settled st) -> exists v, r = Resolve v) ->
  forall r, In r (settled (fold_left (fire f timeoutMs timeWas) firings st)) ->
            exists v, r = Resolve v.
Proof.
  intros Ht0 Hstay. revert st.
  induction firings as [|now rest IH]; intros st Hst; [assumption|].
  cbn [fold_left]. apply IH. unfold fire.
  destruct (cleared st); [assumption|].
  destruct (f now) as [v|] eqn:Hf.
  - cbn. intros r Hr. apply in_app_or in Hr. destruct Hr as [Hr|[<-|[]]]; eauto.
  - destruct (Z.gtb_spec (now - timeWas) timeoutMs); [|assumption].
    exfalso. apply (Hstay now); [lia|assumption].
Qed.

End PollFacts.

Section PollClaims.
Import Poll.

Lemma ideal_split timeWas n :
  idealFirings timeWas (101 + n)
  = idealFirings timeWas 100
    ++ (timeWas + 2020)
       :: map (fun k => timeWas + pollIntervalMs * Z.of_nat k) (seq 102 n).
Proof.
  unfold idealFirings.
  replace (101 + n)%nat with (100 + (1 + n))%nat by lia.
  rewrite seq_app, map_app. f_equal.
Qed.

Lemma ideal_within timeWas n u :
  (n <= 100)%nat -> In u (idealFirings timeWas n) -> u - timeWas <= defaultTimeoutMs.
Proof.
  unfold idealFirings, pollIntervalMs, defaultTimeoutMs. intros Hn Hu.
  apply in_map_iff in Hu. destruct Hu as (k & <- & Hk).
  apply in_seq in Hk. lia.
Qed.

(** C9.  The promise of [sleepUntil] is settled at most once; it is
    resolved with the first truthy value the callback observes, provided
    no earlier firing saw a falsy value more than [timeoutMs] after the
    start; it is rejected with the error [timed out] at the first firing
    that sees a falsy value more than [timeoutMs] after the start; once
    the polled function is truthy from some time within the timeout on,
    the promise is never rejected, and it is resolved as soon as the
    callback fires after that time.  With the default timeout of 2000 ms
    and firings every 20 ms, a function that never turns truthy is still
    pending after 100 firings and rejected at the 101st. *)
Theorem C9_sleepUntil_settles (V : Type) (f : Z -> option V)
  (timeoutMs timeWas : Z) (firings : list Z) :
  let st := sleepUntil f timeoutMs timeWas firings in
  (List.length (settled st) <= 1)%nat
  /\ (forall pre now post v,
        firings = pre ++ now :: post ->
        (forall u, In u pre -> f u = None /\ u - timeWas <= timeoutMs) ->
        f now = Some v ->
        st = mkPoll true [Resolve v])
  /\ (forall pre now post,
        firings = pre ++ now :: post ->
        (forall u, In u pre -> f u = None /\ u - timeWas <= timeoutMs) ->
        f now = None -> now - timeWas > timeoutMs ->
        st = mkPoll true [Reject "timed out"])
  /\ (forall t0,
        t0 - timeWas <= timeoutMs ->
        (forall t, t0 <= t -> f t <> None) ->
        (forall r, In r (settled st) -> exists v, r = Resolve v)
        /\ ((exists u, In u firings /\ t0 <= u) -> exists v, settled st = [Resolve v]))
  /\ (forall n,
        sleepUntil (fun _ => @None V) defaultTimeoutMs timeWas (idealFirings timeWas n)
        = if (n <=? 100)%nat then pending else mkPoll true [Reject "timed out"]).
Proof.
  intros st. subst st. unfold sleepUntil.
  split; [|split; [|split; [|split]]].
  - apply settled_at_most_once; cbn; auto.
  - intros pre now post v -> Hpre Hnow.
    rewrite fold_left_app, (run_waiting f timeoutMs timeWas pre pending eq_refl Hpre).
    cbn [fold_left]. unfold fire at 2. cbn [cleared pending]. rewrite Hnow.
    now apply run_cleared.
  - intros pre now post -> Hpre Hnow Hlate.
    rewrite fold_left_app, (run_waiting f timeoutMs timeWas pre pending eq_refl Hpre).
    cbn [fold_left]. unfold fire at 2. cbn [cleared pending]. rewrite Hnow.
    destruct (Z.gtb_spec (now - timeWas) timeoutMs); [|lia].
    now apply run_cleared.
  - intros t0 Ht0 Hstay.
    assert (Hres : forall r,
               In r (settled (fold_left (fire f timeoutMs timeWas) firings pending)) ->
               exists v, r = Resolve v).
    { apply (never_rejected f timeoutMs timeWas t0); try assumption.
      intros r []. }
    split; [exact Hres|].
    intros (u & Hu & Hge).
    pose proof (settled_at_most_once f timeoutMs timeWas firings pending
                  (fun _ => eq_refl) (Nat.le_0_l 1)) as Hlen.
    destruct (settled (fold_left (fire f timeoutMs timeWas) firings pending))
      as [|r [|r' l]] eqn:Hs.
    + exfalso.
      assert (Hpend : forall l st, In u l -> settled st = [] -> cleared st = false ->
                 settled (fold_left (fire f timeoutMs timeWas) l st) <> []).
      { induction l as [|now rest IH]; intros st Hin Hse Hcl; [destruct Hin|].
        cbn [fold_left].
        destruct (f now) as [v|] eqn:Hf.
        - unfold fire at 2. rewrite Hcl, Hf, run_cleared by reflexivity.
          cbn. now destruct (settled st).
        - destruct Hin as [->|Hin]; [exfalso; now apply (Hstay u)|].
          unfold fire at 2. rewrite Hcl, Hf.
          destruct (_ >? _); [|now apply IH].
          rewrite run_cleared by reflexivity. cbn. now destruct (settled st). }
      now apply (Hpend firings pending Hu).
    + destruct (Hres r (or_introl eq_refl)) as [v ->]. eauto.
    + cbn in Hlen. lia.
  - intros n. destruct (Nat.leb_spec n 100).
    + apply run_waiting; [reflexivity|]. intros u Hu. split; [reflexivity|].
      now apply (ideal_within timeWas n).
    + replace n with (101 + (n - 101))%nat by lia.
      rewrite ideal_split, fold_left_app.
      rewrite (run_waiting (fun _ => None) defaultTimeoutMs timeWas
                 (idealFirings timeWas 100) pending eq_refl).
      * cbn [fold_left]. unfold fire at 2. cbn [cleared pending].
        unfold defaultTimeoutMs.
        destruct (Z.gtb_spec (timeWas + 2020 - timeWas) 2000); [|lia].
        now apply run_cleared.
      * intros u Hu. split; [reflexivity|]. now apply (ideal_within timeWas 100).
Qed.

(** C9 on a concrete run: the function turns truthy after 50 ms and the
    callback fires at 20, 40, 60 and 80 ms. *)
Lemma C9_witness :
  sleepUntil readyAfter50 2000 0 [20; 40; 60; 80] = mkPoll true [Resolve 7%nat].
Proof.
  destruct (C9_sleepUntil_settles nat readyAfter50 2000 0 [20; 40; 60; 80])
    as (_ & Hres & _).
  apply (Hres [20; 40] 60 [80] 7%nat).
  - reflexivity.
  - intros u [<-|[<-|[]]]; split; (reflexivity || lia).
  - reflexivity.
Defined.
End PollClaims.

(* ================================================================== *)
(** ** Properties of the key dispatcher *)
(* ================================================================== *)

Section KeysFacts.
Import Keys.

Lemma inList_In x l : inList x l = true <-> In x l.
Proof.
  unfold inList. rewrite existsb_exists. split.
  - intros (y & Hy & E). apply String.eqb_eq in E. now subst.
  - intros H. exists x. split; [assumption | apply String.eqb_refl].
Qed.

Lemma bind_ret_l {A B} (a : A) (k : A -> M B) : bind (ret a) k = k a.
Proof. unfold bind, ret; simpl. now destruct (k a). Qed.

Lemma bind_emit {B} a (k : unit -> M B) :
  bind (emit a) k = (a :: fst (k tt), snd (k tt)).
Proof. reflexivity. Qed.

(** Past the guards the listener is the switch on the view type. *)
Lemma reaches_viewDispatch env e :
  reachesDispatch env e = true ->
  exists leaf pane,
    activeLeaf env = Some leaf /\ containerEl (view leaf) = Some pane /\
    keydownListener env e = viewDispatch env e (view leaf) pane.
Proof.
  unfold reachesDispatch, keydownListener.
  destruct (activeLeaf env) as [leaf|]; [|discriminate].
  destruct (activeElement env) as [ae|] eqn:Eae; [|discriminate].
  intros H. repeat (apply andb_prop in H; destruct H as [H ?]).
  repeat match goal with
         | H : negb _ = true |- _ => apply negb_true_iff in H
         end.
  match goal with
  | H : _ || _ = false |- _ => apply orb_false_iff in H; destruct H as [Ht Hp]
  end.
  assert (exists pane, containerEl (view leaf) = Some pane) as [pane Hpane].
  { unfold passThroughRest in Hp. destruct (containerEl (view leaf)); [eauto|].
    rewrite orb_true_r in Hp. discriminate. }
  exists leaf, pane. repeat split; try assumption.
  rewrite H, bind_ret_l.
  match goal with H : promptShortcut _ _ = false |- _ => rewrite H end.
  match goal with H : dockShortcut _ _ = false |- _ => rewrite H end.
  cbn [deref]. rewrite bind_ret_l, Ht, Hp. cbn [orb]. rewrite Hpane.
  cbn [deref]. rewrite bind_ret_l.
  destruct (propertyFocused (view leaf)); [discriminate|].
  match goal with H : activeMatches _ _ = false |- _ => rewrite H end.
  now rewrite bind_ret_l.
Qed.


(** C1 as stated fails: in a prompt input (an [INPUT] element), Ctrl+J
    is consumed: the default is prevented and an arrow key is
    redispatched. *)
Lemma C1_counterexample :
  ~ (forall env e ae,
        activeElement env = Some ae -> textInputLike ae = true ->
        defaultPrevented (keydownListener env e) = false
        /\ fst (keydownListener env e) = []).
Proof.
  intros H.
  destruct (H (envWith (someView "markdown") promptInput) ctrlJ promptInput
              eq_refl eq_refl) as [Hd _].
  vm_compute in Hd. discriminate.
Qed.

(** C1, amended.  While the active element is text-input-like, the
    listener returns at once, with no effect at all and the default not
    prevented, for every key event that is not one of the three
    shortcuts tested before the pass-through guard (Cmd+C in the file
    explorer, Ctrl+J/K in a prompt input, Ctrl+N/P in a side dock pane),
    in particular for every key pressed without Ctrl and Cmd, whatever
    the view type.  The default is prevented exactly by the prompt
    shortcut. *)
Theorem C1_pass_through env e ae :
  activeElement env = Some ae ->
  textInputLike ae = true ->
  (earlyShortcut env e = false -> keydownListener env e = ([], Returned))
  /\ (ctrlKey e = false -> metaKey e = false -> keydownListener env e = ([], Returned))
  /\ defaultPrevented (keydownListener env e)
     = match activeLeaf env with Some _ => promptShortcut env e | None => false end.
Proof.
  intros Hae Ht.
  assert (Hmain : earlyShortcut env e = false -> keydownListener env e = ([], Returned)).
  { unfold earlyShortcut, keydownListener.
    destruct (activeLeaf env) as [leaf|]; [|reflexivity].
    intros H. apply orb_false_iff in H. destruct H as [H Hd].
    apply orb_false_iff in H. destruct H as [Hc Hp].
    rewrite Hc, bind_ret_l, Hp, Hd, Hae. cbn [deref].
    rewrite bind_ret_l, Ht. reflexivity. }
  split; [exact Hmain|]. split.
  - intros Hc Hm. apply Hmain. unfold earlyShortcut.
    destruct (activeLeaf env); [|reflexivity].
    unfold copyShortcut, promptShortcut, dockShortcut.
    rewrite Hc, Hm. now rewrite !andb_false_r.
  - unfold keydownListener.
    destruct (activeLeaf env) as [leaf|]; [|reflexivity].
    destruct (copyShortcut e (view leaf)) eqn:Hc.
    + assert (promptShortcut env e = false) as ->.
      { unfold copyShortcut in Hc. unfold promptShortcut.
        apply andb_prop in Hc. destruct Hc as [Hc _].
        apply andb_prop in Hc. destruct Hc as [_ Hc].
        unfold keyIs in Hc. apply String.eqb_eq in Hc.
        unfold keyIn. rewrite Hc. cbn. now rewrite andb_false_r. }
      unfold pathOfFocused, fileOfFocused.
      destruct (tree (view leaf)) as [t|]; [|reflexivity].
      cbn [deref]. rewrite bind_ret_l.
      destruct (focusedItem t) as [i|]; [|reflexivity].
      cbn [deref]. rewrite !bind_ret_l.
      destruct (file i) as [fl|]; reflexivity.
    + rewrite bind_ret_l.
      destruct (promptShortcut env e) eqn:Hp; [reflexivity|].
      destruct (dockShortcut e (view leaf)) eqn:Hd.
      * destruct (tabHeaderEl leaf) as [tab|]; [|reflexivity].
        destruct (keyIs e "p"); reflexivity.
      * rewrite Hae. cbn [deref]. rewrite bind_ret_l, Ht. reflexivity.
Qed.

(** C1 on a concrete event: [j] typed into an input while the file
    explorer is the active view. *)
Lemma C1_witness :
  keydownListener (envWith (someView "file-explorer") promptInput) (plainKey "j")
  = ([], Returned).
Proof.
  apply (C1_pass_through (envWith (someView "file-explorer") promptInput)
           (plainKey "j") promptInput); reflexivity.
Defined.


Lemma defaultPrevented_bind {A B} (m : M A) (k : A -> M B) :
  defaultPrevented (bind m k)
  = defaultPrevented m
    || match snd m with Next a => defaultPrevented (k a) | _ => false end.
Proof.
  unfold defaultPrevented, bind.
  destruct (snd m); cbn [fst]; [apply existsb_app | |]; now rewrite orb_false_r.
Qed.

Ltac split_ifs :=
  repeat first
    [ rewrite bind_ret_l
    | progress cbn [deref]
    | match goal with
      | |- context [if ?b then _ else _] => destruct b
      | |- context [match ?o with Some _ => _ | None => _ end] => destruct o
      | |- context [deref ?o] =>
          lazymatch o with
          | Some _ => fail
          | None => fail
          | _ => destruct o
          end
      end ].

Lemma previewSwitch_quiet e type v :
  defaultPrevented (previewSwitch e type v) = false.
Proof. unfold previewSwitch, when. split_ifs; reflexivity. Qed.

Lemma previewAct_prevents r v :
  defaultPrevented (previewAct r v) = resolves r.
Proof.
  unfold previewAct, resolves.
  destruct (truthyNum (top r)), (truthyNum (left r)), (command r), (event r), v;
    reflexivity.
Qed.

Lemma canvasSwitch_quiet e vw pane :
  defaultPrevented (canvasSwitch e vw pane) = false.
Proof. unfold canvasSwitch, clickIf, when. split_ifs; reflexivity. Qed.

Lemma canvasSwitch_command e vw pane :
  match snd (canvasSwitch e vw pane) with
  | Next c => isSome c
  | _ => false
  end = keyIn e canvasCommandKeys && isSome (canvas vw).
Proof.
  unfold canvasSwitch.
  destruct (keyIn e canvasCommandKeys).
  - destruct (canvas vw) as [c|]; [|reflexivity].
    cbn [deref]. rewrite bind_ret_l. now destruct (Nat.eqb _ _).
  - unfold clickIf, when. split_ifs; reflexivity.
Qed.

Lemma previewLike_type vw :
  isPreviewLike vw = true -> In (viewType vw) ["markdown"; "pdf"; "kanban"; "bases"].
Proof.
  unfold isPreviewLike. intros H. apply orb_prop in H. destruct H as [H|H].
  - apply andb_prop in H. destruct H as [H _]. apply String.eqb_eq in H.
    left. now symmetry.
  - apply inList_In in H. right. exact H.
Qed.

(** C8 as stated fails in the canvas branch: [d] deletes the selection
    and leaves the default alone. *)
Lemma C8_counterexample :
  ~ (forall env e leaf,
        activeLeaf env = Some leaf -> reachesDispatch env e = true ->
        viewType (view leaf) = "canvas" ->
        defaultPrevented (keydownListener env e) = true).
Proof.
  intros H.
  specialize (H (envWith canvasView bodyEl) (plainKey "d") (mkLeaf canvasView None)
                eq_refl eq_refl eq_refl).
  vm_compute in H. discriminate.
Qed.

(** C8, amended.  For a key event that reaches the switch on the view
    type: in a tree-like view [preventDefault] is the first thing done,
    whatever the key; in the canvas view it is called exactly for the
    keys that resolve to a command (j, k, h, l, t, f, z), after the key
    switch; in a preview-like view it is called exactly when the key
    switch completes with a non-zero scroll delta, a command or a
    synthetic event resolved (and the kanban view is not being edited). *)
Theorem C8_prevent_default_by_branch env e leaf :
  activeLeaf env = Some leaf ->
  reachesDispatch env e = true ->
  let vw := view leaf in
  let r := keydownListener env e in
  (inList (viewType vw) treeLikeExcluded = false ->
   exists rest, fst r = PreventDefault :: rest)
  /\ (viewType vw = "canvas" ->
      defaultPrevented r = keyIn e canvasCommandKeys && isSome (canvas vw))
  /\ (isPreviewLike vw = true ->
      defaultPrevented r
      = negb (String.eqb (viewType vw) "kanban" && activeMatches env "cm-content")
        && match snd (previewSwitch e (viewType vw) (viewport vw)) with
           | Next res => resolves res
           | _ => false
           end).
Proof.
  intros Hleaf Hreach vw r.
  destruct (reaches_viewDispatch env e Hreach) as (leaf' & pane & Hl & Hpane & Hk).
  rewrite Hleaf in Hl. injection Hl as <-.
  subst r. rewrite Hk. fold vw. unfold viewDispatch.
  split; [|split].
  - intros ->. cbn [negb]. rewrite bind_emit. cbn [fst]. eauto.
  - intros Hty. rewrite Hty.
    change (inList "canvas" treeLikeExcluded) with true.
    change (String.eqb "canvas" "empty") with false.
    change (String.eqb "canvas" "canvas") with true. cbn [negb].
    unfold canvasKeys. rewrite defaultPrevented_bind, canvasSwitch_quiet.
    cbn [orb]. rewrite <- (canvasSwitch_command e vw pane).
    destruct (snd (canvasSwitch e vw pane)) as [[c|]| |]; reflexivity.
  - intros Hprev. rewrite Hprev.
    assert (Hex : inList (viewType vw) treeLikeExcluded = true
                  /\ String.eqb (viewType vw) "empty" = false
                  /\ String.eqb (viewType vw) "canvas" = false).
    { pose proof (previewLike_type vw Hprev) as Hin. cbn [In] in Hin.
      destruct Hin as [<-|[<-|[<-|[<-|[]]]]]; repeat split; reflexivity. }
    destruct Hex as (-> & -> & ->). cbn [negb].
    unfold previewKeys. rewrite defaultPrevented_bind.
    destruct (String.eqb (viewType vw) "kanban").
    + destruct (activeMatches env "cm-content"); [reflexivity|].
      cbn [ret fst snd defaultPrevented existsb orb andb negb].
      rewrite defaultPrevented_bind, previewSwitch_quiet. cbn [orb].
      destruct (snd (previewSwitch _ _ _)); [apply previewAct_prevents| |]; reflexivity.
    + cbn [ret fst snd defaultPrevented existsb orb andb negb].
      rewrite defaultPrevented_bind, previewSwitch_quiet. cbn [orb].
      destruct (snd (previewSwitch _ _ _)); [apply previewAct_prevents| |]; reflexivity.
Qed.

(** C8 on a concrete event: [z] in a canvas view. *)
Lemma C8_witness :
  defaultPrevented (keydownListener (envWith canvasView bodyEl) (plainKey "z")) = true.
Proof.
  destruct (C8_prevent_default_by_branch (envWith canvasView bodyEl) (plainKey "z")
              (mkLeaf canvasView None) eq_refl eq_refl) as (_ & H & _).
  rewrite (H eq_refl). reflexivity.
Defined.

(** C10.  In the tree-like branch, when the view has no tree, the keys
    h, j, J, k, K do nothing beyond the branch's [preventDefault], and
    the keys g and G throw a [TypeError]. *)
Theorem C10_treeless_keys env e leaf :
  activeLeaf env = Some leaf ->
  reachesDispatch env e = true ->
  inList (viewType (view leaf)) treeLikeExcluded = false ->
  tree (view leaf) = None ->
  (keyIn e ["h"; "j"; "J"; "k"; "K"] = true ->
   keydownListener env e = ([PreventDefault], Next tt))
  /\ (keyIn e ["g"; "G"] = true ->
      keydownListener env e = ([PreventDefault], TypeError)).
Proof.
  intros Hleaf Hreach Hty Htree.
  destruct (reaches_viewDispatch env e Hreach) as (leaf' & pane & Hl & Hpane & Hk).
  rewrite Hleaf in Hl. injection Hl as <-.
  rewrite Hk. unfold viewDispatch. rewrite Hty. cbn [negb].
  rewrite bind_emit. unfold sidebarKeys, keyIn, keyIs. rewrite Htree.
  split; intros Hkey; apply inList_In in Hkey; cbn [In] in Hkey;
    repeat (destruct Hkey as [<-|Hkey]; [reflexivity|]); destruct Hkey.
Qed.

(** C10 on concrete events: [h] and [G] in an outline view that exposes
    no tree. *)
Lemma C10_witness :
  keydownListener (envWith (someView "outline") bodyEl) (plainKey "h")
    = ([PreventDefault], Next tt)
  /\ keydownListener (envWith (someView "outline") bodyEl) (plainKey "G")
    = ([PreventDefault], TypeError).
Proof.
  split.
  - apply (C10_treeless_keys (envWith (someView "outline") bodyEl) (plainKey "h")
             (mkLeaf (someView "outline") None)); reflexivity.
  - apply (C10_treeless_keys (envWith (someView "outline") bodyEl) (plainKey "G")
             (mkLeaf (someView "outline") None)); reflexivity.
Defined.

End KeysFacts.

(* ================================================================== *)
(** ** Properties of the markup toggle engine *)
(* ================================================================== *)

Section MarkupFacts.
Import Markup.

Lemma len_app a b : len (a ++ b) = len a + len b.
Proof. unfold len. rewrite length_app. lia. Qed.

Lemma len_nonneg a : 0 <= len a.
Proof. unfold len. lia. Qed.

Lemma firstn_len_app (a b : str) : firstn (Z.to_nat (len a)) (a ++ b) = a.
Proof.
  unfold len. rewrite Nat2Z.id, firstn_app, Nat.sub_diag, firstn_all.
  cbn [firstn]. apply app_nil_r.
Qed.

Lemma skipn_len_app (a b : str) : skipn (Z.to_nat (len a)) (a ++ b) = b.
Proof.
  unfold len. rewrite Nat2Z.id, skipn_app, Nat.sub_diag, skipn_all.
  reflexivity.
Qed.

Lemma between_app (a w b : str) :
  between (a ++ w ++ b) (len a) (len a + len w) = w.
Proof.
  unfold between. rewrite skipn_len_app.
  replace (len a + len w - len a) with (len w) by lia.
  apply firstn_len_app.
Qed.

Lemma splice_app (a w b text : str) :
  splice (a ++ w ++ b) (len a) (len a + len w) text = a ++ text ++ b.
Proof.
  unfold splice. rewrite firstn_len_app.
  rewrite Z.max_r by (pose proof (len_nonneg w); lia).
  rewrite (app_assoc a w b), <- len_app, skipn_len_app. reflexivity.
Qed.

Lemma offsetOf_locate (d : str) (n : nat) :
  (n <= List.length d)%nat ->
  offsetOf d (fst (locate d n)) (snd (locate d n)) = n.
Proof.
  revert n. induction d as [|c d IH]; intros [|m] Hn; cbn in Hn; try lia.
  - reflexivity.
  - cbn. now destruct (isLF c).
  - cbn [locate]. specialize (IH m ltac:(lia)).
    destruct (locate d m) as [l k]. cbn [fst snd] in IH.
    destruct (isLF c) eqn:Ec.
    + cbn [fst snd offsetOf]. rewrite Ec. now rewrite IH.
    + destruct l as [|l]; cbn [fst snd offsetOf]; rewrite Ec; now rewrite IH.
Qed.

Lemma posToOffset_offsetToPos ed o :
  0 <= o <= len (doc ed) ->
  posToOffset ed (offsetToPos ed o) = o.
Proof.
  intros Ho. unfold posToOffset, offsetToPos, clampOffset.
  rewrite Z.min_l, Z.max_r by lia.
  pose proof (offsetOf_locate (doc ed) (Z.to_nat o)) as H.
  destruct (locate (doc ed) (Z.to_nat o)) as [l k]. cbn [fst snd line ch] in *.
  destruct (Z.ltb_spec (Z.of_nat l) 0); [lia|].
  rewrite Z.max_r, !Nat2Z.id by lia.
  rewrite H; unfold len in Ho; lia.
Qed.

Lemma doc_replaceRange ed text from to :
  doc (replaceRange ed text from to)
  = splice (doc ed) (posToOffset ed from)
      (Z.max (posToOffset ed from) (posToOffset ed to)) text.
Proof.
  unfold replaceRange.
  destruct (anchor ed =? head ed); [reflexivity|].
  destruct (anchor ed <? head ed); reflexivity.
Qed.

Lemma doc_setCursor ed p : doc (setCursor ed p) = doc ed.
Proof. reflexivity. Qed.

(** Replacing the range between two offsets of the document. *)
Lemma doc_replace_offsets ed text a b :
  0 <= a <= b -> b <= len (doc ed) ->
  doc (replaceRange ed text (offsetToPos ed a) (offsetToPos ed b))
  = splice (doc ed) a b text.
Proof.
  intros Ha Hb.
  rewrite doc_replaceRange, !posToOffset_offsetToPos by lia.
  now rewrite Z.max_r by lia.
Qed.

Lemma getRange_offsets ed a b :
  0 <= a <= b -> b <= len (doc ed) ->
  getRange ed (offsetToPos ed a) (offsetToPos ed b) = between (doc ed) a b.
Proof.
  intros Ha Hb. unfold getRange.
  now rewrite !posToOffset_offsetToPos by lia.
Qed.

Lemma selFrom_selTo ed :
  wfEditor ed -> 0 <= selFrom ed <= selTo ed /\ selTo ed <= len (doc ed).
Proof. unfold wfEditor, selFrom, selTo. lia. Qed.

(** C4.  With a range selection, [toggleStyle] replaces the selected
    range by prefix, selected text and suffix, whatever the host renders
    at the selection. *)
Theorem C4_selection_wraps h ed style p s :
  selType h = Range ->
  wfEditor ed ->
  styleMap style = Some (p, s) ->
  exists ed',
    toggleStyle h ed style = Ok ed'
    /\ doc ed'
       = firstn (Z.to_nat (selFrom ed)) (doc ed)
         ++ p ++ between (doc ed) (selFrom ed) (selTo ed) ++ s
         ++ skipn (Z.to_nat (selTo ed)) (doc ed).
Proof.
  intros Hsel Hwf Hmap.
  destruct (selFrom_selTo ed Hwf) as [Hft Hto].
  unfold toggleStyle, wrapRange, getCursorFrom, getCursorTo.
  rewrite Hsel, Hmap. eexists. split; [reflexivity|].
  rewrite doc_replace_offsets, getRange_offsets by lia.
  unfold splice. rewrite Z.max_r by lia. now rewrite <- !app_assoc.
Qed.

(** C4 on the selection [**x**], rendered as a bold construct: it is
    wrapped once more. *)
Lemma C4_witness :
  exists ed',
    toggleStyle selectedBoldHost selectedBoldEditor "strong" = Ok ed'
    /\ doc ed' = lit "****x****".
Proof.
  destruct (C4_selection_wraps selectedBoldHost selectedBoldEditor "strong"
              (lit "**") (lit "**")) as (ed' & Hrun & Hdoc).
  - reflexivity.
  - unfold wfEditor; cbn; lia.
  - reflexivity.
  - exists ed'. split; [exact Hrun|]. rewrite Hdoc. reflexivity.
Defined.


Lemma len_splice d f t text :
  0 <= f <= t -> t <= len d ->
  len (splice d f t text) = f + len text + (len d - t).
Proof.
  intros Hf Ht. unfold splice. rewrite !len_app.
  unfold len in *. rewrite length_firstn, length_skipn. lia.
Qed.

(** C2 as stated fails for a caret in the opening marker: between the
    two asterisks of [a **bold** b] the caret is one unit before the
    content, and it lands on the content's start. *)
Lemma C2_counterexample :
  ~ (forall h ed style r0 r1 r2 ed',
        selType h = Caret ->
        detect h style = Triple r0 r1 r2 ->
        tripleRendered ed r0 r1 r2 ->
        caretIn ed r0 r2 ->
        toggleStyle h ed style = Ok ed' ->
        head ed' - posAtStart r0
        = Z.min (head ed - posAtStart r1) (len (textContent r1))).
Proof.
  intros H.
  specialize (H (boldHost 1) (boldEditor 3) "strong"
                (mkSpan (formattingOf "strong") 2 4 (lit "**"))
                (mkSpan [cmClass "strong"] 4 8 (lit "bold"))
                (mkSpan (formattingOf "strong") 8 10 (lit "**"))
                (mkEditor (lit "a bold b") 2 2)
                eq_refl eq_refl).
  cbn in H. unfold tripleRendered, caretIn in H. cbn in H.
  assert (0 = -1) as E by (apply H; try reflexivity; lia).
  discriminate E.
Qed.

(** C2, amended.  For a caret in a detected construct, [toggleStyle]
    replaces the range from the start of the first marker to the end of
    the last by the content text, and the caret's offset from the start
    of the content is its former offset from the start of the content,
    clamped to lie between the start and the end of the remaining
    content. *)
Theorem C2_collapse_caret h ed style r0 r1 r2 :
  selType h = Caret ->
  detect h style = Triple r0 r1 r2 ->
  tripleRendered ed r0 r1 r2 ->
  caretIn ed r0 r2 ->
  exists ed',
    toggleStyle h ed style = Ok ed'
    /\ doc ed'
       = firstn (Z.to_nat (posAtStart r0)) (doc ed)
         ++ textContent r1 ++ skipn (Z.to_nat (posAtEnd r2)) (doc ed)
    /\ anchor ed' = head ed'
    /\ head ed' - posAtStart r0
       = Z.max 0 (Z.min (head ed - posAtStart r1) (len (textContent r1))).
Proof.
  intros Hsel Hdet (H0 & H01 & H12 & H2 & Hl0 & Hl1) (Hcaret & Hin).
  pose proof (len_nonneg (textContent r0)) as Hn0.
  pose proof (len_nonneg (textContent r1)) as Hn1.
  unfold toggleStyle. rewrite Hsel, Hdet. eexists. split; [reflexivity|].
  unfold getCursor.
  rewrite (posToOffset_offsetToPos ed (head ed)) by lia.
  set (ed1 := replaceRange ed (textContent r1) _ _).
  assert (Hdoc : doc ed1 = splice (doc ed) (posAtStart r0) (posAtEnd r2) (textContent r1)).
  { subst ed1. apply doc_replace_offsets; lia. }
  assert (Hlen : len (doc ed1)
                 = posAtStart r0 + len (textContent r1) + (len (doc ed) - posAtEnd r2)).
  { rewrite Hdoc. apply len_splice; lia. }
  split; [|split].
  - rewrite doc_setCursor, Hdoc. unfold splice. now rewrite Z.max_r by lia.
  - reflexivity.
  - cbn [setCursor setSelection head].
    rewrite posToOffset_offsetToPos by lia. lia.
Qed.

(** C2 on [a **bold** b] with the caret after the [b] of [bold]. *)
Lemma C2_witness :
  exists ed',
    toggleStyle (boldHost 2) (boldEditor 5) "strong" = Ok ed'
    /\ doc ed' = lit "a bold b"
    /\ head ed' - 2 = 5 - 4.
Proof.
  destruct (C2_collapse_caret (boldHost 2) (boldEditor 5) "strong"
              (mkSpan (formattingOf "strong") 2 4 (lit "**"))
              (mkSpan [cmClass "strong"] 4 8 (lit "bold"))
              (mkSpan (formattingOf "strong") 8 10 (lit "**")))
    as (ed' & Hrun & Hdoc & _ & Hcaret).
  - reflexivity.
  - reflexivity.
  - unfold tripleRendered; cbn; lia.
  - unfold caretIn; cbn; lia.
  - exists ed'. split; [exact Hrun|]. split; [exact Hdoc|exact Hcaret].
Defined.


Lemma locate_app_end (a b : str) :
  locate (a ++ b) (List.length a) = locate a (List.length a).
Proof.
  induction a as [|c a IH]; [now destruct b|].
  cbn [app List.length locate]. now rewrite IH.
Qed.

Lemma offsetOf_line0 (x : str) (j : nat) :
  (j <= List.length x)%nat ->
  noLineBreak (firstn j x) = true ->
  offsetOf x 0 j = j.
Proof.
  revert j. induction x as [|c x IH]; intros [|j] Hj Hx; cbn in Hj; try lia.
  - reflexivity.
  - cbn. now destruct (isLF c).
  - cbn in Hx. apply andb_prop in Hx. destruct Hx as [Hc Hx].
    apply negb_true_iff in Hc. cbn [offsetOf]. rewrite Hc.
    rewrite IH; [reflexivity | lia | assumption].
Qed.

(** Moving right from the end of [a] over units that are no line break. *)
Lemma offsetOf_advance (a x : str) (j : nat) :
  (j <= List.length x)%nat ->
  noLineBreak (firstn j x) = true ->
  offsetOf (a ++ x) (fst (locate a (List.length a)))
    (snd (locate a (List.length a)) + j)
  = (List.length a + j)%nat.
Proof.
  intros Hj Hx. induction a as [|c a IH].
  - cbn. now apply offsetOf_line0.
  - cbn [app List.length locate].
    destruct (locate a (List.length a)) as [l k]. cbn [fst snd] in IH.
    destruct (isLF c) eqn:Ec.
    + cbn [fst snd offsetOf]. rewrite Ec. now rewrite IH.
    + destruct l as [|l]; cbn [fst snd offsetOf Nat.add]; rewrite Ec; now rewrite IH.
Qed.

Lemma noLineBreak_app a b :
  noLineBreak (a ++ b) = noLineBreak a && noLineBreak b.
Proof. apply forallb_app. Qed.

Lemma noLineBreak_openTag tagName :
  noLineBreak tagName = true -> noLineBreak (openTag tagName) = true.
Proof.
  intros H. unfold openTag. rewrite !noLineBreak_app, H. reflexivity.
Qed.

(** A caret with no word under it: [wrapSelection] inserts the pair at
    the caret and the selection it returns lies between the two. *)
Lemma wrap_empty_caret h ed before after :
  wfEditor ed ->
  anchor ed = head ed ->
  wordAt h (getCursor ed) = None ->
  noLineBreak before = true ->
  applySelection (wrapSelection h before after ed)
  = mkEditor
      (firstn (Z.to_nat (head ed)) (doc ed) ++ before ++ after
       ++ skipn (Z.to_nat (head ed)) (doc ed))
      (head ed + len before) (head ed + len before).
Proof.
  intros (_ & Hh) Hcaret Hword Hnl.
  unfold wrapSelection, somethingSelected, getCursorFrom, getCursorTo,
    getSelection, selFrom, selTo.
  rewrite Hword, Hcaret, Z.eqb_refl, Z.min_id, Z.max_id. cbn [negb fst snd].
  unfold replaceRange. rewrite Hcaret, Z.eqb_refl.
  rewrite !posToOffset_offsetToPos, Z.max_id by lia.
  unfold mapPos. rewrite Z.ltb_irrefl, Z.eqb_refl. cbn [orb andb].
  change (-1 <? 0) with true. cbn [andb orb negb].
  cbn [somethingSelected anchor head]. unfold somethingSelected.
  cbn [anchor head]. rewrite Z.eqb_refl. cbn [negb].
  unfold applySelection. cbn [fst snd]. unfold setSelection. cbn [doc].
  unfold between. rewrite Z.sub_diag. cbn [Z.to_nat firstn app].
  unfold splice. rewrite Z.max_id.
  set (a := firstn (Z.to_nat (head ed)) (doc ed)).
  set (b := skipn (Z.to_nat (head ed)) (doc ed)).
  assert (Hlen : List.length a = Z.to_nat (head ed)).
  { subst a. rewrite length_firstn. unfold len in Hh. lia. }
  assert (Hpos : forall x y,
             posToOffset
               {| doc := a ++ (before ++ after) ++ b; anchor := x; head := y |}
               {| line := line (getCursor ed); ch := ch (getCursor ed) + len before |}
             = head ed + len before).
  { intros x y. assert (Hloc : locate (doc ed) (Z.to_nat (head ed)) = locate a (List.length a)).
    { rewrite <- (firstn_skipn (Z.to_nat (head ed)) (doc ed)) at 1.
      fold a b. rewrite <- Hlen. apply locate_app_end. }
    unfold posToOffset, getCursor, offsetToPos, clampOffset. cbn [doc].
    rewrite Z.min_l, Z.max_r by lia. rewrite Hloc.
    pose proof (offsetOf_advance a ((before ++ after) ++ b) (List.length before)) as Hadv.
    destruct (locate a (List.length a)) as [l k]. cbn [fst snd line ch] in *.
    destruct (Z.ltb_spec (Z.of_nat l) 0); [lia|].
    rewrite Nat2Z.id.
    replace (Z.to_nat (Z.max 0 (Z.of_nat k + len before)))
      with (k + List.length before)%nat by (unfold len; lia).
    rewrite Hadv.
    - unfold len. lia.
    - rewrite !length_app. lia.
    - rewrite <- app_assoc, firstn_app, Nat.sub_diag, firstn_all. cbn [firstn].
      now rewrite app_nil_r. }
  rewrite !Hpos. now rewrite <- !app_assoc.
Qed.


Lemma toggleTag_falls_through h ed tagName :
  collapses tagName (getLine ed (line (getCursor ed)))
    (ch (getCursor ed) + (len tagName + 1)) = false ->
  collapses tagName (getLine ed (line (getCursor ed)))
    (ch (getCursor ed) - (len tagName + 1)) = false ->
  toggleTag h ed tagName
  = applySelection (wrapSelection h (openTag tagName) (closeTag tagName) ed).
Proof.
  unfold collapses, toggleTag. intros H1 H2.
  destruct (scans tagName _ (ch (getCursor ed) + _)) as [[o|] [c|]];
    try discriminate;
    destruct (scans tagName _ (ch (getCursor ed) - _)) as [[o'|] [c'|]];
    try discriminate; reflexivity.
Qed.

Lemma doc_applySelection r : doc (applySelection r) = doc (fst r).
Proof. unfold applySelection. destruct (snd r) as [[a b]|]; reflexivity. Qed.

Lemma doc_wrapSelection h ed before after :
  wfEditor ed ->
  (forall wf wt, wordAt h (getCursor ed) = Some (wf, wt) ->
                 posToOffset ed wf <= posToOffset ed wt) ->
  doc (fst (wrapSelection h before after ed))
  = firstn (Z.to_nat (fst (wrappedRange h ed))) (doc ed)
    ++ before
    ++ between (doc ed) (fst (wrappedRange h ed)) (snd (wrappedRange h ed))
    ++ after
    ++ skipn (Z.to_nat (snd (wrappedRange h ed))) (doc ed).
Proof.
  intros Hwf Hord. destruct (selFrom_selTo ed Hwf) as [Hft Hto].
  unfold wrapSelection, wrappedRange, getCursorFrom, getCursorTo, getSelection.
  destruct (somethingSelected ed) eqn:Hsel; cbn [negb].
  - match goal with
    | |- doc (fst (if ?c then _ else _)) = _ => destruct c
    end; cbn [fst snd];
      rewrite doc_replace_offsets by lia; unfold splice;
      rewrite Z.max_r by lia; now rewrite <- !app_assoc.
  - destruct (wordAt h (getCursor ed)) as [[wf wt]|] eqn:Hw.
    + specialize (Hord wf wt eq_refl).
      match goal with
      | |- doc (fst (if ?c then _ else _)) = _ => destruct c
      end; cbn [fst snd];
        rewrite doc_replaceRange; unfold splice, getRange;
        rewrite !Z.max_r by lia; now rewrite <- !app_assoc.
    + assert (Heq : selFrom ed = head ed /\ selTo ed = head ed).
      { unfold somethingSelected in Hsel. apply negb_false_iff in Hsel.
        apply Z.eqb_eq in Hsel. unfold selFrom, selTo. lia. }
      destruct Heq as [Ef Et]. rewrite Ef, Et in *.
      match goal with
      | |- doc (fst (if ?c then _ else _)) = _ => destruct c
      end; cbn [fst snd];
        rewrite doc_replace_offsets by lia; unfold splice;
        rewrite Z.max_r by lia; now rewrite <- !app_assoc.
Qed.

(** C3, amended.  For a caret with no word under it, [toggleStyle]
    changes nothing when no construct of the style is detected; the
    empty pair with the caret between its halves is what [toggleTag]
    inserts when neither slicing makes both scans succeed. *)
Theorem C3_no_word h ed :
  selType h = Caret ->
  wfEditor ed ->
  anchor ed = head ed ->
  wordAt h (getCursor ed) = None ->
  (forall style, detect h style = Nothing -> toggleStyle h ed style = Ok ed)
  /\ (forall tagName,
        noLineBreak tagName = true ->
        collapses tagName (getLine ed (line (getCursor ed)))
          (ch (getCursor ed) + (len tagName + 1)) = false ->
        collapses tagName (getLine ed (line (getCursor ed)))
          (ch (getCursor ed) - (len tagName + 1)) = false ->
        toggleTag h ed tagName
        = mkEditor
            (firstn (Z.to_nat (head ed)) (doc ed)
             ++ openTag tagName ++ closeTag tagName
             ++ skipn (Z.to_nat (head ed)) (doc ed))
            (head ed + len (openTag tagName))
            (head ed + len (openTag tagName))).
Proof.
  intros Hsel Hwf Hcaret Hword. split.
  - intros style Hdet. unfold toggleStyle. now rewrite Hsel, Hdet, Hword.
  - intros tagName Hnl H1 H2.
    rewrite toggleTag_falls_through by assumption.
    apply wrap_empty_caret; try assumption.
    now apply noLineBreak_openTag.
Qed.

(** C3 as stated fails: on an empty document [toggleStyle] inserts no
    delimiters. *)
Lemma C3_counterexample :
  ~ (forall h ed style p s,
        selType h = Caret ->
        detect h style = Nothing ->
        wordAt h (getCursor ed) = None ->
        styleMap style = Some (p, s) ->
        exists ed',
          toggleStyle h ed style = Ok ed'
          /\ doc ed'
             = firstn (Z.to_nat (head ed)) (doc ed) ++ p ++ s
               ++ skipn (Z.to_nat (head ed)) (doc ed)
          /\ head ed' = head ed + len p).
Proof.
  intros H.
  destruct (H (bareHost Caret) emptyEditor "em" (lit "*") (lit "*")
              eq_refl eq_refl eq_refl eq_refl) as (ed' & Hrun & Hdoc & _).
  cbn in Hrun. injection Hrun as <-. discriminate Hdoc.
Qed.

(** C3 on the empty document, for the style [em] and the tag [u]. *)
Lemma C3_witness :
  toggleStyle (bareHost Caret) emptyEditor "em" = Ok emptyEditor
  /\ toggleTag (bareHost Caret) emptyEditor (lit "u")
     = mkEditor (lit "<u></u>") 3 3.
Proof.
  destruct (C3_no_word (bareHost Caret) emptyEditor) as [Hstyle Htag].
  - reflexivity.
  - unfold wfEditor; cbn; lia.
  - reflexivity.
  - reflexivity.
  - split.
    + apply Hstyle. reflexivity.
    + apply (Htag (lit "u")); reflexivity.
Defined.

(** C7.  When neither slicing of the line makes both scans succeed,
    [toggleTag] is the wrap path: the opening and closing tags are
    inserted around the explicit selection, the word at the caret, or
    the caret itself. *)
Theorem C7_one_scan_is_no_collapse h ed tagName :
  wfEditor ed ->
  (forall wf wt, wordAt h (getCursor ed) = Some (wf, wt) ->
                 posToOffset ed wf <= posToOffset ed wt) ->
  collapses tagName (getLine ed (line (getCursor ed)))
    (ch (getCursor ed) + (len tagName + 1)) = false ->
  collapses tagName (getLine ed (line (getCursor ed)))
    (ch (getCursor ed) - (len tagName + 1)) = false ->
  toggleTag h ed tagName
  = applySelection (wrapSelection h (openTag tagName) (closeTag tagName) ed)
  /\ doc (toggleTag h ed tagName)
     = firstn (Z.to_nat (fst (wrappedRange h ed))) (doc ed)
       ++ openTag tagName
       ++ between (doc ed) (fst (wrappedRange h ed)) (snd (wrappedRange h ed))
       ++ closeTag tagName
       ++ skipn (Z.to_nat (snd (wrappedRange h ed))) (doc ed).
Proof.
  intros Hwf Hord H1 H2.
  rewrite toggleTag_falls_through by assumption.
  split; [reflexivity|].
  rewrite doc_applySelection. now apply doc_wrapSelection.
Qed.

(** C7 on [a <u>b c] with the caret after [b]: only the scan for the
    opening tag succeeds. *)
Lemma C7_witness :
  doc (toggleTag openOnlyHost openOnlyEditor (lit "u")) = lit "a <u><u>b</u> c".
Proof.
  destruct (C7_one_scan_is_no_collapse openOnlyHost openOnlyEditor (lit "u"))
    as [_ Hdoc].
  - unfold wfEditor; cbn; lia.
  - intros wf wt E. injection E as <- <-. vm_compute. discriminate.
  - reflexivity.
  - reflexivity.
  - rewrite Hdoc. reflexivity.
Defined.


Lemma wordUnit_not c d : wordUnit d = false -> wordUnit c = true -> Ascii.eqb c d = false.
Proof.
  intros Hd Hc. destruct (Ascii.eqb_spec c d); [subst; congruence | reflexivity].
Qed.

Lemma stripCommentClose_word w :
  plainWord w = true -> stripCommentClose (w ++ lit " -->") = w.
Proof.
  induction w as [|c w IH]; intros Hw; [reflexivity|].
  cbn in Hw. apply andb_prop in Hw. destruct Hw as [Hc Hw].
  cbn [app stripCommentClose dropSpaces].
  rewrite (wordUnit_not c " "%char eq_refl Hc).
  change (lit "-->") with ("-"%char :: lit "->"). cbn [strEqb].
  rewrite (wordUnit_not c "-"%char eq_refl Hc). cbn [andb].
  now rewrite IH.
Qed.

Lemma stripComment_word w :
  plainWord w = true ->
  stripComment (lit "<!-- " ++ w ++ lit " -->") = w.
Proof.
  intros Hw. unfold stripComment, stripCommentOpen.
  change (lit "<!-- " ++ w ++ lit " -->")
    with ("<"%char :: "!"%char :: "-"%char :: "-"%char :: " "%char :: w ++ lit " -->").
  cbn [lit list_ascii_of_string isPrefix Ascii.eqb Bool.eqb andb skipn dropSpaces].
  destruct w as [|c w]; [reflexivity|].
  cbn in Hw. apply andb_prop in Hw. destruct Hw as [Hc Hw'].
  cbn [app dropSpaces]. rewrite (wordUnit_not c " "%char eq_refl Hc).
  apply (stripCommentClose_word (c :: w)). cbn. now rewrite Hc.
Qed.

Lemma detect_comment h style n :
  detect h style = CommentNode n -> style = "comment".
Proof.
  unfold detect. destruct (closest h _) as [[i node]|]; [|discriminate].
  destruct (String.eqb_spec style "comment"); [easy|].
  destruct (sortSpans _) as [|? [|? [|? [|? ?]]]]; discriminate.
Qed.

(** C5.  For a style of the table and a plain word under the caret in
    text where no construct of the style is detected, [toggleStyle]
    wraps the word in the delimiters, and applied again, with the host
    now detecting the construct, gives back the original text. *)
Theorem C5_toggle_twice h1 h2 ed style p s pre w post :
  styleMap style = Some (p, s) ->
  doc ed = pre ++ w ++ post ->
  plainWord w = true ->
  selType h1 = Caret ->
  detect h1 style = Nothing ->
  wordAt h1 (getCursor ed)
  = Some (offsetToPos ed (len pre), offsetToPos ed (len pre + len w)) ->
  selType h2 = Caret ->
  detectsConstruct h2 style (len pre) p w s ->
  exists ed1 ed2,
    toggleStyle h1 ed style = Ok ed1
    /\ doc ed1 = pre ++ p ++ w ++ s ++ post
    /\ toggleStyle h2 ed1 style = Ok ed2
    /\ doc ed2 = doc ed.
Proof.
  intros Hmap Hdoc Hw Hs1 Hd1 Hword Hs2 Hd2.
  pose proof (len_nonneg pre) as Hpre. pose proof (len_nonneg w) as Hlw.
  pose proof (len_nonneg p) as Hlp. pose proof (len_nonneg s) as Hls.
  pose proof (len_nonneg post) as Hlpost.
  assert (Hlen : len (doc ed) = len pre + len w + len post).
  { rewrite Hdoc, !len_app. lia. }
  assert (Hrun1 : exists ed1, toggleStyle h1 ed style = Ok ed1
                              /\ doc ed1 = pre ++ p ++ w ++ s ++ post).
  { unfold toggleStyle, wrapRange. rewrite Hs1, Hd1, Hword, Hmap.
    eexists. split; [reflexivity|].
    rewrite doc_setCursor, doc_replace_offsets, getRange_offsets by lia.
    rewrite Hdoc, between_app, splice_app. now rewrite <- !app_assoc. }
  destruct Hrun1 as (ed1 & Hrun1 & Hdoc1). exists ed1.
  assert (Hdoc1' : doc ed1 = pre ++ (p ++ w ++ s) ++ post).
  { rewrite Hdoc1. now rewrite <- !app_assoc. }
  assert (Hlen1 : len (doc ed1) = len pre + (len p + len w + len s) + len post).
  { rewrite Hdoc1', !len_app. lia. }
  assert (Hpws : len (p ++ w ++ s) = len p + len w + len s).
  { rewrite !len_app. lia. }
  unfold detectsConstruct in Hd2. unfold toggleStyle. rewrite Hs2.
  destruct (detect h2 style) as [n|r0 r1 r2|] eqn:Hdet; [| |destruct Hd2].
  - destruct Hd2 as [Ea Eb].
    assert (style = "comment") as -> by (eapply detect_comment; eassumption).
    assert (Hstrip : stripComment (p ++ w ++ s) = w).
    { cbn in Hmap. injection Hmap as <- <-. now apply stripComment_word. }
    eexists. repeat split; [exact Hrun1 | exact Hdoc1 |].
    rewrite Ea, Eb.
    rewrite doc_replace_offsets, getRange_offsets by lia.
    rewrite Hdoc1'.
    replace (len pre + len p + len w + len s)
      with (len pre + len (p ++ w ++ s)) by (rewrite Hpws; lia).
    rewrite between_app, splice_app, Hstrip.
    now rewrite Hdoc.
  - destruct Hd2 as (Ea & Eb & Et).
    eexists. repeat split; [exact Hrun1 | exact Hdoc1 |].
    rewrite doc_setCursor, Ea, Eb, Et.
    rewrite doc_replace_offsets by lia.
    rewrite Hdoc1'.
    replace (len pre + len p + len w + len s)
      with (len pre + len (p ++ w ++ s)) by (rewrite Hpws; lia).
    rewrite splice_app. now rewrite Hdoc.
Qed.

(** C5 on [say word now] and the style [strong]. *)
Lemma C5_witness :
  exists ed1 ed2,
    toggleStyle wordHost wordEditor "strong" = Ok ed1
    /\ doc ed1 = lit "say **word** now"
    /\ toggleStyle wrappedHost ed1 "strong" = Ok ed2
    /\ doc ed2 = lit "say word now".
Proof.
  apply (C5_toggle_twice wordHost wrappedHost wordEditor "strong"
           (lit "**") (lit "**") (lit "say ") (lit "word") (lit " now"));
    try reflexivity.
  cbn. repeat split; reflexivity.
Defined.


(** *** [toggleLink] *)

Lemma upTo_length stop s run rest :
  upTo stop s = Some (run, rest) ->
  List.length s = S (List.length run + List.length rest).
Proof.
  revert run. induction s as [|c s IH]; intros run H; [discriminate|].
  cbn in H. destruct (Ascii.eqb c stop).
  - injection H as <- <-. reflexivity.
  - destruct (upTo stop s) as [[run' rest']|]; [|discriminate].
    injection H as <- <-. cbn. now rewrite (IH run' eq_refl).
Qed.

Lemma mdLinkAt_fits : fits mdLinkAt.
Proof.
  intros s w g H. unfold mdLinkAt in H.
  destruct s as [|c r]; [discriminate|].
  destruct (Ascii.eqb c "["); [|discriminate].
  destruct (upTo "]" r) as [[text [|c2 r2]]|] eqn:E1; try discriminate.
  destruct (Ascii.eqb c2 "("); [|discriminate].
  destruct (upTo ")" r2) as [[url r3]|] eqn:E2; [|discriminate].
  injection H as <- <-.
  apply upTo_length in E1. apply upTo_length in E2. cbn in E1.
  repeat (progress cbn [List.length] || rewrite length_app). lia.
Qed.

Lemma lazyToClose_length s inner :
  lazyToClose s = Some inner -> (List.length inner + 2 <= List.length s)%nat.
Proof.
  revert inner. induction s as [|c s IH]; intros inner H; [discriminate|].
  cbn [lazyToClose] in H.
  destruct (isPrefix (lit "]]") (c :: s)) eqn:Ep.
  - injection H as <-. destruct s; cbn in Ep |- *; [|lia].
    now rewrite andb_false_r in Ep.
  - destruct (isLineTerminator c); [discriminate|].
    destruct (lazyToClose s) as [inner'|]; [|discriminate].
    injection H as <-. specialize (IH inner' eq_refl). cbn. lia.
Qed.

Lemma wikiLinkAt_fits : fits wikiLinkAt.
Proof.
  intros s w g H. unfold wikiLinkAt in H.
  destruct (isPrefix (lit "[[") s) eqn:Ep; [|discriminate].
  destruct (lazyToClose (skipn 2 s)) as [inner|] eqn:El; [|discriminate].
  injection H as <- <-. apply lazyToClose_length in El.
  rewrite length_skipn in El.
  destruct s as [|? [|? ?]]; cbn in Ep, El; try discriminate.
  - now rewrite andb_false_r in Ep.
  - repeat (progress cbn [List.length lit list_ascii_of_string app]
            || rewrite length_app). lia.
Qed.

Lemma search_fits here s i m :
  fits here ->
  search here s i = Some m ->
  i <= index m /\ 0 < len (whole m) /\ index m - i + len (whole m) <= len s.
Proof.
  intros Hfit. revert i. induction s as [|c s IH]; intros i H; cbn [search] in H.
  - destruct (here []) as [[w g]|] eqn:E; [|discriminate].
    apply Hfit in E. cbn in E. lia.
  - destruct (here (c :: s)) as [[w g]|] eqn:E.
    + injection H as <-. apply Hfit in E. cbn [index whole]. unfold len. lia.
    + apply IH in H. unfold len in *. cbn [List.length]. lia.
Qed.

Lemma len_sliceFrom ln x :
  0 <= x -> len (sliceFrom ln x) = Z.max 0 (len ln - x).
Proof.
  intros Hx. unfold sliceFrom, relIndex.
  destruct (Z.ltb_spec x 0); [lia|].
  unfold len. rewrite length_skipn. lia.
Qed.

Lemma mdLinkLoop_fuel fuel ed pos ln x :
  0 <= x -> Z.max 0 (len ln - x) < Z.of_nat fuel ->
  mdLinkLoop fuel ed pos ln x <> OutOfFuel.
Proof.
  revert x. induction fuel as [|fuel IH]; intros x Hx Hf; [lia|].
  cbn [mdLinkLoop].
  destruct (search mdLinkAt (sliceFrom ln x) 0) as [m|] eqn:Es; [|discriminate].
  destruct (_ || _); [discriminate|].
  apply (search_fits _ _ _ _ mdLinkAt_fits) in Es.
  rewrite len_sliceFrom in Es by lia.
  apply IH; lia.
Qed.

Lemma wikiLinkLoop_fuel fuel ed pos ln x :
  0 <= x -> Z.max 0 (len ln - x) < Z.of_nat fuel ->
  wikiLinkLoop fuel ed pos ln x <> OutOfFuel.
Proof.
  revert x. induction fuel as [|fuel IH]; intros x Hx Hf; [lia|].
  cbn [wikiLinkLoop].
  destruct (search wikiLinkAt (sliceFrom ln x) 0) as [m|] eqn:Es; [|discriminate].
  destruct (_ && _); [discriminate|].
  apply (search_fits _ _ _ _ wikiLinkAt_fits) in Es.
  rewrite len_sliceFrom in Es by lia.
  apply IH; lia.
Qed.

(** The loops of [toggleLink] never run out of fuel: it always returns
    or throws. *)
Lemma toggleLink_total h ed : toggleLink h ed <> None.
Proof.
  unfold toggleLink.
  set (ln := getLine ed (line (getCursor ed))).
  assert (Hmd : finishScan ed (mdLinkLoop (S (List.length ln)) ed (getCursor ed) ln 0)
                <> None).
  { pose proof (mdLinkLoop_fuel (S (List.length ln)) ed (getCursor ed) ln 0) as H.
    destruct (mdLinkLoop _ _ _ _ _); try discriminate.
    exfalso. apply H; [lia | unfold len; lia | reflexivity]. }
  assert (Hwiki : finishScan ed (wikiLinkLoop (S (List.length ln)) ed (getCursor ed) ln 0)
                  <> None).
  { pose proof (wikiLinkLoop_fuel (S (List.length ln)) ed (getCursor ed) ln 0) as H.
    destruct (wikiLinkLoop _ _ _ _ _); try discriminate.
    exfalso. apply H; [lia | unfold len; lia | reflexivity]. }
  destruct (selType h); try discriminate;
    (destruct (closest h ["cm-link"; "cm-url"]);
     [ destruct (finishScan ed (mdLinkLoop _ _ _ _ _)); [discriminate | now elim Hmd]
     | destruct (closest h ["cm-hmd-internal-link"]);
       [ destruct (finishScan ed (wikiLinkLoop _ _ _ _ _)); [discriminate | now elim Hwiki]
       | discriminate ] ]).
Qed.

(** With a non-empty link text the caret stays on the text. *)
Lemma caretAfter_within c s text :
  text <> [] -> s <= c ->
  s <= caretAfter c s text 1 <= s + len text - 1.
Proof.
  intros Ht Hc. unfold caretAfter.
  assert (0 < len text) by (destruct text; [easy | unfold len; cbn; lia]).
  destruct (Z.geb_spec c (s + len text)); [lia|].
  destruct (Z.gtb_spec c (s + 1)); lia.
Qed.

(** What a hit of the markdown-link loop is: a match around the caret,
    replaced by its text, with the caret given by the three-way rule. *)
Lemma mdLinkLoop_hit fuel ed pos ln x ed' endPos :
  mdLinkLoop fuel ed pos ln x = Hit ed' endPos ->
  exists m s,
    s <= ch pos <= s + len (whole m)
    /\ ed' = replaceRange ed (group1 m) (mkPos (line pos) s)
               (mkPos (line pos) (s + len (whole m)))
    /\ endPos = mkPos (line pos) (caretAfter (ch pos) s (group1 m) 1).
Proof.
  revert x. induction fuel as [|fuel IH]; intros x H; [discriminate|].
  cbn [mdLinkLoop] in H.
  destruct (search mdLinkAt (sliceFrom ln x) 0) as [m|]; [|discriminate].
  destruct (_ || _) eqn:Hin; [|now apply IH in H].
  injection H as <- <-. exists m, (x + index m).
  split; [|split; reflexivity].
  apply orb_prop in Hin.
  destruct Hin as [Hin|Hin]; apply andb_prop in Hin; destruct Hin as [Ha Hb]; lia.
Qed.

(** Without a link text the first branch of the caret rule yields the
    column before the match. *)
Lemma caretAfter_empty c s : s <= c -> caretAfter c s [] 1 = s - 1.
Proof.
  intros Hc. unfold caretAfter. cbn [len List.length Z.of_nat].
  destruct (Z.geb_spec c (s + 0)); lia.
Qed.

(** C6 at a link with an empty text: in [ab [](url)] with the caret in
    the URL the match at column 3 is removed and the caret is put at
    column 2, before the match; with the match at column 0 the loop asks
    for column -1. *)
Theorem C6_empty_text_caret :
  toggleLink urlHost (mkEditor (lit "ab [](url)") 7 7)
  = Some (Ok (mkLinkOutcome (mkEditor (lit "ab ") 2 2) false))
  /\ mdLinkLoop 13 (mkEditor (lit "[](http://x)") 5 5) (mkPos 0 5)
       (lit "[](http://x)") 0
     = Hit (mkEditor [] 0 0) (mkPos 0 (-1)).
Proof. split; reflexivity. Qed.

End MarkupFacts.

(* ================================================================== *)
(** ** Further properties of the key dispatcher *)
(* ================================================================== *)

Section KeysMore.
Import Keys.

Ltac split_cases :=
  repeat first
    [ rewrite bind_ret_l
    | progress cbn [deref]
    | match goal with
      | |- context [if ?b then _ else _] => destruct b
      | |- context [match ?o with Some _ => _ | None => _ end] => destruct o
      | |- context [deref ?o] =>
          lazymatch o with
          | Some _ => fail
          | None => fail
          | _ => destruct o
          end
      end ].

(** X1: a key event that none of the three early shortcuts takes, and
    for which a condition of the pass-through guard other than the two
    tests of the focused element holds (an overlay in the document, no
    pane, an item being renamed, or Ctrl, Alt or Cmd held), has no
    effect, whatever element has the focus. *)
Theorem passThrough_other_guards env e ae leaf :
  activeLeaf env = Some leaf ->
  activeElement env = Some ae ->
  earlyShortcut env e = false ->
  passThroughRest env e (view leaf) = true ->
  keydownListener env e = ([], Returned).
Proof.
  intros Hleaf Hae Hearly Hrest.
  unfold earlyShortcut in Hearly. unfold keydownListener. rewrite Hleaf in *.
  apply orb_false_iff in Hearly. destruct Hearly as [H Hd].
  apply orb_false_iff in H. destruct H as [Hc Hp].
  rewrite Hc, bind_ret_l, Hp, Hd, Hae. cbn [deref].
  rewrite bind_ret_l, Hrest, orb_true_r. reflexivity.
Qed.

Lemma passThrough_other_guards_witness :
  keydownListener (envWith (someView "file-explorer") bodyEl) (altKeyEvent "j")
  = ([], Returned).
Proof.
  apply (passThrough_other_guards (envWith (someView "file-explorer") bodyEl)
           (altKeyEvent "j") bodyEl (mkLeaf (someView "file-explorer") None));
    reflexivity.
Defined.

Lemma removeSelected_quiet ed : defaultPrevented (removeSelected ed) = false.
Proof. reflexivity. Qed.

(** X2: the listener prevents the default of a key event only on the
    prompt shortcut (Ctrl+J or Ctrl+K in a prompt input) or after the
    event has passed every guard and reached the switch on the view
    type; none of the other early exits prevents it. *)
Theorem prevented_only_by_prompt_or_dispatch env e :
  defaultPrevented (keydownListener env e) = true ->
  promptShortcut env e = true \/ reachesDispatch env e = true.
Proof.
  unfold keydownListener, reachesDispatch.
  destruct (activeLeaf env) as [leaf|]; [|discriminate].
  destruct (copyShortcut e (view leaf)) eqn:Hc.
  - unfold pathOfFocused, fileOfFocused.
    destruct (tree (view leaf)) as [t|]; [|discriminate].
    cbn [deref]. rewrite bind_ret_l.
    destruct (focusedItem t) as [i|]; [|discriminate].
    cbn [deref]. rewrite !bind_ret_l.
    destruct (file i) as [fl|]; discriminate.
  - rewrite bind_ret_l.
    destruct (promptShortcut env e) eqn:Hp; [now left|].
    destruct (dockShortcut e (view leaf)) eqn:Hd.
    + destruct (tabHeaderEl leaf) as [tab|]; [|discriminate].
      destruct (keyIs e "p"); discriminate.
    + destruct (activeElement env) as [ae|] eqn:Hae; [|discriminate].
      cbn [deref]. rewrite bind_ret_l.
      destruct (textInputLike ae || passThroughRest env e (view leaf)) eqn:Hg;
        [discriminate|].
      destruct (containerEl (view leaf)) as [pane|] eqn:Hpane; [|discriminate].
      cbn [deref]. rewrite bind_ret_l.
      destruct (propertyFocused (view leaf)) as [ed|].
      * unfold when. destruct (keyIs e "d"); discriminate.
      * destruct (activeMatches env "metadata-properties-heading").
        -- unfold when. destruct (keyIn e ["l"; "o"]); discriminate.
        -- intros _. right. reflexivity.
Qed.

Lemma prevented_only_by_prompt_or_dispatch_witness :
  promptShortcut (envWith (someView "markdown") promptInput) ctrlJ = true
  \/ reachesDispatch (envWith (someView "markdown") promptInput) ctrlJ = true.
Proof.
  apply prevented_only_by_prompt_or_dispatch. reflexivity.
Defined.

(** X3: a key event that reaches the switch on the view type in a
    lineage view, or in a markdown view that is not in preview mode,
    falls through every branch: nothing is done and the default is not
    prevented. *)
Theorem editing_views_inert env e leaf :
  activeLeaf env = Some leaf ->
  reachesDispatch env e = true ->
  viewType (view leaf) = "lineage"
  \/ (viewType (view leaf) = "markdown" /\ String.eqb (mode (view leaf)) "preview" = false) ->
  keydownListener env e = ([], Next tt).
Proof.
  intros Hleaf Hreach Hty.
  destruct (reaches_viewDispatch env e Hreach) as (leaf' & pane & Hl & Hpane & Hk).
  rewrite Hleaf in Hl. injection Hl as <-.
  rewrite Hk. unfold viewDispatch, isPreviewLike.
  destruct Hty as [-> | [-> ->]]; reflexivity.
Qed.

Lemma editing_views_inert_witness :
  keydownListener (envWith (someView "markdown") bodyEl) (plainKey "j") = ([], Next tt).
Proof.
  apply (editing_views_inert (envWith (someView "markdown") bodyEl) (plainKey "j")
           (mkLeaf (someView "markdown") None)); [reflexivity | reflexivity |].
  right. split; reflexivity.
Defined.

(** X4: past the pass-through guard, with a property focused in the
    metadata editor, [d] removes the selected properties, or the focused
    one when none is selected, and every other key does nothing; in both
    cases the listener returns without preventing the default. *)
Theorem property_focus_only_deletes env e leaf ae ed :
  activeLeaf env = Some leaf ->
  activeElement env = Some ae ->
  earlyShortcut env e = false ->
  textInputLike ae = false ->
  passThroughRest env e (view leaf) = false ->
  propertyFocused (view leaf) = Some ed ->
  keydownListener env e
  = (if keyIs e "d"
     then [RemoveProperties
             (match selectedLines ed with
              | [] => [focusedProperty ed]
              | ls => map Some ls
              end)]
     else [],
     Returned).
Proof.
  intros Hleaf Hae Hearly Ht Hrest Hprop.
  unfold earlyShortcut in Hearly. unfold keydownListener. rewrite Hleaf in *.
  apply orb_false_iff in Hearly. destruct Hearly as [H Hd].
  apply orb_false_iff in H. destruct H as [Hc Hp].
  rewrite Hc, bind_ret_l, Hp, Hd, Hae. cbn [deref].
  rewrite bind_ret_l, Ht, Hrest. cbn [orb].
  assert (exists pane, containerEl (view leaf) = Some pane) as [pane Hpane].
  { unfold passThroughRest in Hrest. destruct (containerEl (view leaf)); [eauto|].
    rewrite orb_true_r in Hrest. discriminate. }
  rewrite Hpane. cbn [deref]. rewrite bind_ret_l, Hprop.
  unfold when. destruct (keyIs e "d"); reflexivity.
Qed.

Lemma property_focus_only_deletes_witness :
  keydownListener (envWith propertyView bodyEl) (plainKey "d")
  = ([RemoveProperties [Some "tags"; Some "aliases"]], Returned)
  /\ keydownListener (envWith propertyView bodyEl) (plainKey "j") = ([], Returned).
Proof.
  split.
  - apply (property_focus_only_deletes (envWith propertyView bodyEl) (plainKey "d")
             (mkLeaf propertyView None) bodyEl (mkMeta true ["tags"; "aliases"] None));
      reflexivity.
  - apply (property_focus_only_deletes (envWith propertyView bodyEl) (plainKey "j")
             (mkLeaf propertyView None) bodyEl (mkMeta true ["tags"; "aliases"] None));
      reflexivity.
Defined.

Lemma threw_bind {A B} (m : M A) (k : A -> M B) :
  threw (bind m k)
  = match snd m with Next a => threw (k a) | Returned => false | TypeError => true end.
Proof. unfold threw, bind. now destruct (snd m). Qed.

(** X5: in a sidebar view other than the file explorer that has no
    tree, the listener throws exactly on [y], [g] and [G]; every other
    key completes. *)
Theorem treeless_sidebar_throws env e leaf :
  activeLeaf env = Some leaf ->
  reachesDispatch env e = true ->
  inList (viewType (view leaf)) treeLikeExcluded = false ->
  String.eqb (viewType (view leaf)) "file-explorer" = false ->
  tree (view leaf) = None ->
  threw (keydownListener env e) = keyIn e ["y"; "g"; "G"].
Proof.
  intros Hleaf Hreach Hty Hfe Htree.
  destruct (reaches_viewDispatch env e Hreach) as (leaf' & pane & Hl & Hpane & Hk).
  rewrite Hleaf in Hl. injection Hl as <-.
  rewrite Hk. unfold viewDispatch. rewrite Hty. cbn [negb].
  rewrite threw_bind. cbn [emit snd].
  unfold sidebarKeys, keyIn, keyIs, inList. rewrite Htree, Hfe. cbn [existsb].
  unfold when, clickIf, toggleLeft, when.
  destruct (String.eqb (key e) "h") eqn:Eh;
    [apply String.eqb_eq in Eh; rewrite Eh; reflexivity|].
  repeat match goal with
         | |- context [String.eqb (key e) ?k] =>
             let E := fresh "E" in
             destruct (String.eqb (key e) k) eqn:E;
             [ apply String.eqb_eq in E; rewrite E in *; try discriminate; cbn | ]
         end; cbn; try reflexivity; split_cases; reflexivity.
Qed.


(** Past the guards, a preview-like view that is not a kanban board
    being edited runs the key switch and the action chain. *)
Lemma reaches_preview env e leaf :
  activeLeaf env = Some leaf ->
  reachesDispatch env e = true ->
  isPreviewLike (view leaf) = true ->
  String.eqb (viewType (view leaf)) "kanban" && activeMatches env "cm-content" = false ->
  keydownListener env e
  = bind (previewSwitch e (viewType (view leaf)) (viewport (view leaf)))
      (fun r => previewAct r (viewport (view leaf))).
Proof.
  intros Hleaf Hreach Hprev Hkan.
  destruct (reaches_viewDispatch env e Hreach) as (leaf' & pane & Hl & Hpane & Hk).
  rewrite Hleaf in Hl. injection Hl as <-.
  rewrite Hk. unfold viewDispatch. rewrite Hprev.
  assert (Hex : inList (viewType (view leaf)) treeLikeExcluded = true
                /\ String.eqb (viewType (view leaf)) "empty" = false
                /\ String.eqb (viewType (view leaf)) "canvas" = false).
  { pose proof (previewLike_type (view leaf) Hprev) as Hin. cbn [In] in Hin.
    destruct Hin as [<-|[<-|[<-|[<-|[]]]]]; repeat split; reflexivity. }
  destruct Hex as (-> & -> & ->). cbn [negb].
  unfold previewKeys.
  destruct (String.eqb (viewType (view leaf)) "kanban"); cbn [andb] in Hkan.
  - rewrite Hkan. now rewrite bind_ret_l.
  - now rewrite bind_ret_l.
Qed.

(** X6: in a preview-like view with a scroll container, [g] scrolls by
    minus the scroll offset and [G] by the scroll height, each with the
    default prevented, unless that amount is zero: then nothing is done
    and the default is not prevented. *)
Theorem scroll_to_edge_at_edge env e leaf v :
  activeLeaf env = Some leaf ->
  reachesDispatch env e = true ->
  isPreviewLike (view leaf) = true ->
  String.eqb (viewType (view leaf)) "kanban" && activeMatches env "cm-content" = false ->
  viewport (view leaf) = Some v ->
  (key e = "g" ->
   keydownListener env e
   = if scrollTop v =? 0 then ([], Next tt)
     else ([PreventDefault; ScrollByTop (- scrollTop v)], Next tt))
  /\ (key e = "G" ->
      keydownListener env e
      = if scrollHeight v =? 0 then ([], Next tt)
        else ([PreventDefault; ScrollByTop (scrollHeight v)], Next tt)).
Proof.
  intros Hleaf Hreach Hprev Hkan Hv.
  rewrite (reaches_preview env e leaf Hleaf Hreach Hprev Hkan), Hv.
  unfold previewSwitch, keyIs, keyIn.
  split; intros ->; cbn -[Z.eqb Z.opp]; unfold previewAct, truthyNum;
    cbn -[Z.eqb Z.opp].
  - destruct (Z.eqb_spec (- scrollTop v) 0), (Z.eqb_spec (scrollTop v) 0);
      try lia; reflexivity.
  - destruct (scrollHeight v =? 0); reflexivity.
Qed.


Lemma scroll_to_edge_at_edge_witness :
  keydownListener (envWith (pdfView (Some (mkViewport 0 900 600))) bodyEl) (plainKey "g")
  = ([], Next tt)
  /\ keydownListener (envWith (pdfView (Some (mkViewport 40 900 600))) bodyEl) (plainKey "g")
     = ([PreventDefault; ScrollByTop (-40)], Next tt).
Proof.
  split.
  - apply (scroll_to_edge_at_edge
             (envWith (pdfView (Some (mkViewport 0 900 600))) bodyEl) (plainKey "g")
             (mkLeaf (pdfView (Some (mkViewport 0 900 600))) None)
             (mkViewport 0 900 600)); reflexivity.
  - apply (scroll_to_edge_at_edge
             (envWith (pdfView (Some (mkViewport 40 900 600))) bodyEl) (plainKey "g")
             (mkLeaf (pdfView (Some (mkViewport 40 900 600))) None)
             (mkViewport 40 900 600)); reflexivity.
Defined.

(** X7: in a preview-like view whose scroll container is missing, the
    keys with a fixed step or a synthetic event ([j k d u h l f b]) only
    prevent the default, and the keys that read the container
    ([g G H L]) throw before anything is prevented. *)
Theorem preview_without_viewport env e leaf :
  activeLeaf env = Some leaf ->
  reachesDispatch env e = true ->
  isPreviewLike (view leaf) = true ->
  String.eqb (viewType (view leaf)) "kanban" && activeMatches env "cm-content" = false ->
  viewport (view leaf) = None ->
  (keyIn e ["j"; "k"; "d"; "u"; "h"; "l"; "f"; "b"] = true ->
   keydownListener env e = ([PreventDefault], Next tt))
  /\ (keyIn e ["g"; "G"; "H"; "L"] = true ->
      keydownListener env e = ([], TypeError)).
Proof.
  intros Hleaf Hreach Hprev Hkan Hv.
  rewrite (reaches_preview env e leaf Hleaf Hreach Hprev Hkan), Hv.
  unfold previewSwitch, keyIs.
  split; intros Hkey; apply inList_In in Hkey; cbn [In] in Hkey;
    repeat (destruct Hkey as [<-|Hkey]; [reflexivity|]); destruct Hkey.
Qed.

Lemma preview_without_viewport_witness :
  keydownListener (envWith basesView bodyEl) (plainKey "j")
  = ([PreventDefault], Next tt)
  /\ keydownListener (envWith basesView bodyEl) (plainKey "G") = ([], TypeError).
Proof.
  split.
  - apply (preview_without_viewport (envWith basesView bodyEl) (plainKey "j")
             (mkLeaf basesView None)); reflexivity.
  - apply (preview_without_viewport (envWith basesView bodyEl) (plainKey "G")
             (mkLeaf basesView None)); reflexivity.
Defined.

Lemma treeless_sidebar_throws_witness :
  threw (keydownListener (envWith (someView "outline") bodyEl) (plainKey "y")) = true
  /\ threw (keydownListener (envWith (someView "outline") bodyEl) (plainKey "l")) = false.
Proof.
  split.
  - rewrite (treeless_sidebar_throws (envWith (someView "outline") bodyEl) (plainKey "y")
               (mkLeaf (someView "outline") None)); reflexivity.
  - rewrite (treeless_sidebar_throws (envWith (someView "outline") bodyEl) (plainKey "l")
               (mkLeaf (someView "outline") None)); reflexivity.
Defined.

End KeysMore.

(* ================================================================== *)
(** ** Further properties of the markup toggle engine *)
(* ================================================================== *)

Section MarkupMore.
Import Markup.

Lemma endsLine_breaks t :
  t <> [] -> endsLine t = true -> (1 <= lineBreaks t)%nat.
Proof.
  induction t as [|c t IH]; intros Hne He; [easy|].
  cbn [endsLine] in He. cbn [lineBreaks]. destruct t as [|c' t'].
  - rewrite He. cbn. lia.
  - specialize (IH ltac:(discriminate) He). destruct (isLF c); lia.
Qed.

Lemma endsLine_tail c t : endsLine (c :: t) = true -> endsLine t = true.
Proof. cbn. now destruct t. Qed.

Lemma locate_first_line (ln rest : str) (i : nat) :
  noLineBreak ln = true -> (i <= List.length ln)%nat ->
  locate (ln ++ rest) i = (O, i).
Proof.
  revert i. induction ln as [|c ln IH]; intros [|i] Hn Hi; cbn in Hi; try lia.
  - now destruct rest.
  - reflexivity.
  - cbn in Hn. apply andb_prop in Hn. destruct Hn as [Hc Hn].
    apply negb_true_iff in Hc. cbn [app locate].
    rewrite (IH i Hn ltac:(lia)), Hc. reflexivity.
Qed.

Lemma locate_line (top ln rest : str) (i : nat) :
  endsLine top = true -> noLineBreak ln = true -> (i <= List.length ln)%nat ->
  locate (top ++ ln ++ rest) (List.length top + i) = (lineBreaks top, i).
Proof.
  intros He Hn Hi. induction top as [|c t IH].
  - cbn [app List.length Nat.add lineBreaks]. now apply locate_first_line.
  - cbn [app List.length Nat.add locate lineBreaks].
    rewrite (IH (endsLine_tail c t He)).
    destruct (isLF c) eqn:Ec; [reflexivity|].
    destruct t as [|c' t']; [cbn in He; congruence|].
    pose proof (endsLine_breaks (c' :: t') ltac:(discriminate) (endsLine_tail c _ He)).
    destruct (lineBreaks (c' :: t')); [lia | reflexivity].
Qed.

Lemma offsetOf_first_line (ln rest : str) (k : nat) :
  noLineBreak ln = true -> startsLine rest = true ->
  offsetOf (ln ++ rest) 0 k = Nat.min k (List.length ln).
Proof.
  revert k. induction ln as [|c ln IH]; intros k Hn Hs.
  - rewrite Nat.min_0_r. destruct rest as [|c r]; [reflexivity|].
    cbn in Hs. cbn. now rewrite Hs.
  - cbn in Hn. apply andb_prop in Hn. destruct Hn as [Hc Hn].
    apply negb_true_iff in Hc. cbn [app offsetOf]. rewrite Hc.
    destruct k as [|k]; [reflexivity|].
    rewrite (IH k Hn Hs). reflexivity.
Qed.

Lemma offsetOf_line (top ln rest : str) (k : nat) :
  endsLine top = true -> noLineBreak ln = true -> startsLine rest = true ->
  offsetOf (top ++ ln ++ rest) (lineBreaks top) k
  = (List.length top + Nat.min k (List.length ln))%nat.
Proof.
  intros He Hn Hs. induction top as [|c t IH].
  - cbn [app List.length Nat.add lineBreaks]. now apply offsetOf_first_line.
  - specialize (IH (endsLine_tail c t He)).
    cbn [app List.length Nat.add offsetOf lineBreaks].
    destruct (isLF c) eqn:Ec.
    + now rewrite IH.
    + destruct t as [|c' t']; [cbn in He; congruence|].
      pose proof (endsLine_breaks (c' :: t') ltac:(discriminate) (endsLine_tail c _ He)).
      destruct (lineBreaks (c' :: t')) as [|l] eqn:El; [lia|].
      now rewrite IH.
Qed.

Lemma lineText_first_line (ln rest : str) :
  noLineBreak ln = true -> startsLine rest = true ->
  lineText (ln ++ rest) 0 = ln.
Proof.
  intros Hn Hs. induction ln as [|c ln IH].
  - cbn. destruct rest as [|c r]; [reflexivity|]. cbn in Hs. cbn. now rewrite Hs.
  - cbn in Hn. apply andb_prop in Hn. destruct Hn as [Hc Hn].
    apply negb_true_iff in Hc. cbn [app lineText]. rewrite Hc. now rewrite IH.
Qed.

Lemma lineText_line (top ln rest : str) :
  endsLine top = true -> noLineBreak ln = true -> startsLine rest = true ->
  lineText (top ++ ln ++ rest) (lineBreaks top) = ln.
Proof.
  intros He Hn Hs. induction top as [|c t IH].
  - cbn [app List.length Nat.add lineBreaks]. now apply lineText_first_line.
  - specialize (IH (endsLine_tail c t He)).
    cbn [app lineText lineBreaks].
    destruct (isLF c) eqn:Ec.
    + exact IH.
    + destruct t as [|c' t']; [cbn in He; congruence|].
      pose proof (endsLine_breaks (c' :: t') ltac:(discriminate) (endsLine_tail c _ He)).
      destruct (lineBreaks (c' :: t')) as [|l] eqn:El; [lia|].
      exact IH.
Qed.

(** *** The editor's view of a caret on a line *)

Lemma getCursor_onLine ed top ln rest :
  onLine ed top ln rest ->
  len top <= head ed <= len top + len ln ->
  getCursor ed = mkPos (Z.of_nat (lineBreaks top)) (head ed - len top).
Proof.
  intros (Hdoc & He & Hn & Hs) Hh.
  unfold getCursor, offsetToPos, clampOffset. rewrite Hdoc.
  assert (Hl : len (top ++ ln ++ rest) = len top + len ln + len rest).
  { rewrite !len_app. lia. }
  pose proof (len_nonneg rest). pose proof (len_nonneg top).
  rewrite Z.min_l, Z.max_r by lia.
  replace (Z.to_nat (head ed))
    with (List.length top + Z.to_nat (head ed - len top))%nat
    by (unfold len in *; lia).
  rewrite locate_line by (try assumption; unfold len in *; lia).
  f_equal. lia.
Qed.

Lemma getLine_onLine ed top ln rest :
  onLine ed top ln rest ->
  getLine ed (Z.of_nat (lineBreaks top)) = ln.
Proof.
  intros (Hdoc & He & Hn & Hs). unfold getLine.
  rewrite Hdoc, Nat2Z.id. now apply lineText_line.
Qed.

Lemma posToOffset_onLine ed top ln rest c :
  onLine ed top ln rest ->
  0 <= c <= len ln ->
  posToOffset ed (mkPos (Z.of_nat (lineBreaks top)) c) = len top + c.
Proof.
  intros (Hdoc & He & Hn & Hs) Hc. unfold posToOffset. cbn [line ch].
  destruct (Z.ltb_spec (Z.of_nat (lineBreaks top)) 0); [lia|].
  rewrite Hdoc, Nat2Z.id, offsetOf_line by assumption.
  unfold len in *. lia.
Qed.


(** *** Slices with indices inside the string *)

Lemma slice_prefix s b :
  0 <= b <= len s -> slice s 0 b = firstn (Z.to_nat b) s.
Proof.
  intros Hb. unfold slice, relIndex.
  destruct (Z.ltb_spec b 0); [lia|]. cbn [Z.ltb Z.compare].
  rewrite (Z.min_l 0), (Z.min_l b) by lia. cbn [Z.to_nat skipn].
  now rewrite Z.sub_0_r.
Qed.

Lemma slice_between s a b :
  0 <= a <= b -> b <= len s -> slice s a b = between s a b.
Proof.
  intros Ha Hb. unfold slice, relIndex, between.
  destruct (Z.ltb_spec a 0); [lia|]. destruct (Z.ltb_spec b 0); [lia|].
  now rewrite !Z.min_l by lia.
Qed.

Lemma sliceFrom_inside s a :
  0 <= a <= len s -> sliceFrom s a = skipn (Z.to_nat a) s.
Proof.
  intros Ha. unfold sliceFrom, relIndex.
  destruct (Z.ltb_spec a 0); [lia|]. now rewrite Z.min_l by lia.
Qed.

Lemma take_app_len (x y : str) n :
  0 <= n -> firstn (Z.to_nat (len x + n)) (x ++ y) = x ++ firstn (Z.to_nat n) y.
Proof.
  intros Hn. unfold len. rewrite Z2Nat.inj_add, Nat2Z.id by lia.
  apply firstn_app_2.
Qed.

Lemma drop_app_len (x y : str) n :
  0 <= n -> skipn (Z.to_nat (len x + n)) (x ++ y) = skipn (Z.to_nat n) y.
Proof.
  intros Hn. unfold len. rewrite Z2Nat.inj_add, Nat2Z.id by lia.
  rewrite skipn_app, skipn_all2 by lia.
  replace (List.length x + Z.to_nat n - List.length x)%nat with (Z.to_nat n) by lia.
  reflexivity.
Qed.

(** *** Searching *)

Lemma lacks_app c a b : lacks c (a ++ b) = lacks c a && lacks c b.
Proof. apply forallb_app. Qed.

Lemma lacks_skipn c n s : lacks c s = true -> lacks c (skipn n s) = true.
Proof.
  revert s. induction n as [|n IH]; intros [|x s] H; try assumption.
  cbn in H. apply andb_prop in H. cbn [skipn]. now apply IH.
Qed.

Lemma lacks_firstn c n s : lacks c s = true -> lacks c (firstn n s) = true.
Proof.
  revert s. induction n as [|n IH]; intros [|x s] H; try reflexivity.
  cbn in H. apply andb_prop in H. destruct H as [Hx H].
  cbn. rewrite Hx. now apply IH.
Qed.

Lemma search_here here s i w g :
  here s = Some (w, g) -> search here s i = Some (mkMatch i w g).
Proof. intros H. destruct s; cbn [search]; now rewrite H. Qed.

Lemma search_lacks here c pre s i :
  needsFirst here c -> lacks c pre = true ->
  search here (pre ++ s) i = search here s (i + len pre).
Proof.
  intros Hneed. revert i. induction pre as [|x pre IH]; intros i Hl.
  - cbn [app]. f_equal. unfold len. cbn. lia.
  - cbn in Hl. apply andb_prop in Hl. destruct Hl as [Hx Hl].
    apply negb_true_iff in Hx. cbn [app search].
    rewrite (Hneed (x :: pre ++ s) Hx), (IH (i + 1) Hl).
    f_equal. unfold len. cbn [List.length]. lia.
Qed.

Lemma search_none here c s i :
  needsFirst here c -> lacks c s = true -> search here s i = None.
Proof.
  intros Hneed Hl.
  rewrite <- (app_nil_r s), (search_lacks here c s [] i Hneed Hl).
  cbn [search]. now rewrite (Hneed [] I).
Qed.

Lemma isPrefix_app p s : isPrefix p (p ++ s) = true.
Proof.
  induction p as [|a p IH]; [reflexivity|].
  cbn. now rewrite Ascii.eqb_refl, IH.
Qed.

Lemma isPrefix_first p c s :
  match s with x :: _ => Ascii.eqb x c = false | [] => True end ->
  isPrefix (c :: p) s = false.
Proof.
  destruct s as [|x s]; [reflexivity|]. intros H. cbn.
  rewrite Ascii.eqb_sym, H. reflexivity.
Qed.

Lemma checkTagOpenAt_needs tag : needsFirst (checkTagOpenAt tag) "<".
Proof.
  intros s Hs. unfold checkTagOpenAt, openTag.
  change (lit "<" ++ tag ++ lit ">") with ("<"%char :: tag ++ lit ">").
  now rewrite (isPrefix_first _ _ s Hs).
Qed.

Lemma checkTagCloseAt_needs tag : needsFirst (checkTagCloseAt tag) "<".
Proof.
  intros s Hs. unfold checkTagCloseAt, closeTag.
  change (lit "</" ++ tag ++ lit ">") with ("<"%char :: "/"%char :: tag ++ lit ">").
  rewrite (isPrefix_first _ _ s Hs). now rewrite andb_false_r.
Qed.

Lemma dotStarThen_lacks tag r :
  lacks "<" r = true -> dotStarThen (closeTag tag) r = false.
Proof.
  unfold closeTag.
  change (lit "</" ++ tag ++ lit ">") with ("<"%char :: "/"%char :: tag ++ lit ">").
  induction r as [|x r IH]; intros H; [reflexivity|].
  cbn in H. apply andb_prop in H. destruct H as [Hx H].
  apply negb_true_iff in Hx. cbn [dotStarThen].
  rewrite isPrefix_first by exact Hx. rewrite (IH H).
  now rewrite andb_false_r.
Qed.

(** The opening tag is no prefix of the closing tag. *)
Lemma open_not_close_aux tag c post :
  Ascii.eqb c ">" = false ->
  isPrefix (tag ++ lit ">") (c :: tag ++ lit ">" ++ post) = false.
Proof.
  revert c. induction tag as [|a t IH]; intros c Hc.
  - cbn [app lit list_ascii_of_string isPrefix].
    now rewrite Ascii.eqb_sym, Hc.
  - cbn [app isPrefix]. destruct (Ascii.eqb_spec a c) as [->|Hne]; [|reflexivity].
    cbn [andb]. now apply IH.
Qed.

Lemma checkTagCloseAt_close tag post :
  checkTagCloseAt tag (closeTag tag ++ post) = Some (closeTag tag, []).
Proof.
  unfold checkTagCloseAt. rewrite isPrefix_app.
  assert (isPrefix (openTag tag) (closeTag tag ++ post) = false) as ->; [|reflexivity].
  unfold openTag, closeTag.
  change ((lit "</" ++ tag ++ lit ">") ++ post)
    with ("<"%char :: "/"%char :: (tag ++ lit ">") ++ post).
  change (lit "<" ++ tag ++ lit ">") with ("<"%char :: tag ++ lit ">").
  cbn [isPrefix]. rewrite Ascii.eqb_refl. cbn [andb].
  rewrite <- app_assoc. now apply open_not_close_aux.
Qed.

Lemma checkTagOpenAt_open tag r :
  lacks "<" r = true ->
  checkTagOpenAt tag (openTag tag ++ r) = Some (openTag tag, []).
Proof.
  intros Hr. unfold checkTagOpenAt.
  rewrite isPrefix_app, skipn_app, skipn_all, Nat.sub_diag.
  cbn [skipn app]. now rewrite (dotStarThen_lacks tag r Hr).
Qed.

Lemma len_openTag tag : len (openTag tag) = len tag + 2.
Proof.
  unfold openTag. rewrite !len_app.
  change (len (lit "<")) with 1. change (len (lit ">")) with 1. lia.
Qed.

Lemma len_closeTag tag : len (closeTag tag) = len tag + 3.
Proof.
  unfold closeTag. rewrite !len_app.
  change (len (lit "</")) with 2. change (len (lit ">")) with 1. lia.
Qed.


Lemma take_app_short (x y : str) n :
  0 <= n <= len x -> firstn (Z.to_nat n) (x ++ y) = firstn (Z.to_nat n) x.
Proof.
  intros Hn. rewrite firstn_app.
  replace (Z.to_nat n - List.length x)%nat with O by (unfold len in Hn; lia).
  cbn [firstn]. apply app_nil_r.
Qed.

Lemma drop_app_short (x y : str) n :
  0 <= n <= len x -> skipn (Z.to_nat n) (x ++ y) = skipn (Z.to_nat n) x ++ y.
Proof.
  intros Hn. rewrite skipn_app.
  replace (Z.to_nat n - List.length x)%nat with O by (unfold len in Hn; lia).
  reflexivity.
Qed.

Lemma len_skipn_inside (x : str) n :
  0 <= n <= len x -> len (skipn (Z.to_nat n) x) = len x - n.
Proof. intros Hn. unfold len in *. rewrite length_skipn. lia. Qed.

Lemma posToOffset_same_doc ed1 ed2 p :
  doc ed1 = doc ed2 -> posToOffset ed1 p = posToOffset ed2 p.
Proof. intros H. unfold posToOffset. now rewrite H. Qed.

(** *** [toggleTag]: the collapse *)

Section Collapse.

Variables (ed : Editor) (top pre body post rest tagName : str).

Let o := openTag tagName.
Let cl := closeTag tagName.
Let ln := pre ++ o ++ body ++ cl ++ post.
Let L := Z.of_nat (lineBreaks top).

Hypothesis Hline : onLine ed top ln rest.
Hypothesis Hpre : lacks "<" pre = true.
Hypothesis Hbody : lacks "<" body = true.
Hypothesis Hpost : lacks "<" post = true.
Hypothesis Htag : lacks "<" tagName = true.

Lemma len_tagged_line :
  len ln = len pre + len o + len body + len cl + len post.
Proof. unfold ln. rewrite !len_app. lia. Qed.

(** Both scans succeed when the line is cut inside the body. *)
Lemma scans_inside n :
  0 <= n <= len body ->
  scans tagName ln (len pre + len o + n)
  = (Some (mkMatch (len pre) o []), Some (mkMatch (len body - n) cl [])).
Proof.
  intros Hn.
  pose proof (len_nonneg pre). pose proof (len_nonneg o).
  pose proof (len_nonneg cl). pose proof (len_nonneg post).
  pose proof len_tagged_line as Hlen.
  unfold scans. f_equal.
  - rewrite slice_prefix by lia. unfold ln.
    rewrite <- Z.add_assoc, take_app_len, take_app_len, take_app_short by lia.
    unfold checkTagOpen.
    rewrite (search_lacks _ _ pre _ 0 (checkTagOpenAt_needs tagName) Hpre).
    apply search_here. apply checkTagOpenAt_open. now apply lacks_firstn.
  - rewrite sliceFrom_inside by lia. unfold ln.
    rewrite <- Z.add_assoc, drop_app_len, drop_app_len, drop_app_short by lia.
    unfold checkTagClose.
    rewrite (search_lacks _ _ (skipn (Z.to_nat n) body) _ 0
               (checkTagCloseAt_needs tagName) (lacks_skipn _ _ _ Hbody)).
    rewrite len_skipn_inside by lia.
    apply search_here. apply checkTagCloseAt_close.
Qed.

(** The closing scan fails when the line is cut inside the closing tag. *)
Lemma close_scan_cut_short p :
  1 <= p <= len cl ->
  checkTagClose tagName (sliceFrom ln (len pre + len o + len body + p)) = None.
Proof.
  intros Hp.
  pose proof (len_nonneg pre). pose proof (len_nonneg o).
  pose proof (len_nonneg body). pose proof (len_nonneg post).
  pose proof len_tagged_line as Hlen.
  rewrite sliceFrom_inside by lia. unfold ln.
  rewrite <- !Z.add_assoc, !drop_app_len, drop_app_short by lia.
  apply (search_none _ "<"%char); [apply checkTagCloseAt_needs|].
  rewrite lacks_app, Hpost, andb_true_r.
  replace (Z.to_nat p) with (S (Z.to_nat (p - 1))) by lia.
  unfold cl, closeTag.
  change (lit "</" ++ tagName ++ lit ">")
    with ("<"%char :: "/"%char :: tagName ++ lit ">").
  cbn [skipn]. apply lacks_skipn. cbn [lacks forallb].
  change (forallb (fun x => negb (Ascii.eqb x "<")) (tagName ++ lit ">"))
    with (lacks "<" (tagName ++ lit ">")).
  rewrite lacks_app, Htag. reflexivity.
Qed.

Lemma between_body :
  between ln (len pre + len o) (len pre + len o + len body) = body.
Proof.
  unfold ln. rewrite (app_assoc pre o), <- len_app. apply between_app.
Qed.

(** The editor after the tags around [body] are replaced by [body] and
    the caret is put at column [q]. *)
Lemma collapse_result q :
  0 <= q <= len pre + len body + len post ->
  setSelection
    (replaceRange ed body (mkPos L (len pre))
       (mkPos L (len pre + len o + len body + len cl)))
    (mkPos L q) (mkPos L q)
  = mkEditor (top ++ pre ++ body ++ post ++ rest) (len top + q) (len top + q).
Proof.
  intros Hq.
  pose proof (len_nonneg pre). pose proof (len_nonneg o).
  pose proof (len_nonneg body). pose proof (len_nonneg cl).
  pose proof (len_nonneg post). pose proof len_tagged_line as Hlen.
  unfold L.
  set (ed' := replaceRange ed body _ _).
  assert (Hdoc : doc ed' = top ++ (pre ++ body ++ post) ++ rest).
  { subst ed'. rewrite doc_replaceRange.
    rewrite (posToOffset_onLine ed top ln rest (len pre) Hline) by lia.
    rewrite (posToOffset_onLine ed top ln rest _ Hline) by lia.
    rewrite Z.max_r by lia.
    destruct Hline as (Hd & _). rewrite Hd. unfold ln.
    replace (top ++ (pre ++ o ++ body ++ cl ++ post) ++ rest)
      with ((top ++ pre) ++ (o ++ body ++ cl) ++ post ++ rest)
      by (now rewrite <- !app_assoc).
    replace (len top + len pre) with (len (top ++ pre)) by apply len_app.
    replace (len top + (len pre + len o + len body + len cl))
      with (len (top ++ pre) + len (o ++ body ++ cl))
      by (rewrite !len_app; lia).
    rewrite splice_app. now rewrite <- !app_assoc. }
  assert (Hline' : onLine ed' top (pre ++ body ++ post) rest).
  { destruct Hline as (_ & He & Hn & Hs). repeat split; try assumption.
    unfold ln in Hn.
    repeat (rewrite noLineBreak_app in Hn; apply andb_prop in Hn;
            destruct Hn as [? Hn]).
    rewrite !noLineBreak_app.
    repeat (apply andb_true_intro; split); assumption. }
  unfold setSelection.
  rewrite (posToOffset_onLine ed' top _ rest q Hline') by (rewrite !len_app; lia).
  rewrite Hdoc. now rewrite <- !app_assoc.
Qed.

(** The cursor and the lengths, for a caret [j] units into the body. *)
Lemma caret_in_body j :
  head ed = len top + len pre + len o + j ->
  0 <= j <= len body ->
  getCursor ed = mkPos (Z.of_nat (lineBreaks top)) (len pre + len o + j).
Proof.
  intros Hhead Hj.
  pose proof (len_nonneg pre). pose proof (len_nonneg o).
  pose proof (len_nonneg cl). pose proof (len_nonneg post).
  pose proof len_tagged_line as Hlen.
  rewrite (getCursor_onLine ed top ln rest Hline) by lia. f_equal. lia.
Qed.

(** The first slicing, at the caret plus the tag name's length plus one,
    finds both tags when it still cuts the line inside the body. *)
Lemma collapse_first_slicing h j :
  head ed = len top + len pre + len o + j ->
  0 <= j ->
  j + (len tagName + 1) <= len body ->
  toggleTag h ed tagName
  = mkEditor (top ++ pre ++ body ++ post ++ rest)
      (len top + len pre + j) (len top + len pre + j).
Proof.
  intros Hhead Hj Ha.
  pose proof (len_nonneg pre). pose proof (len_nonneg o).
  pose proof (len_nonneg body). pose proof (len_nonneg cl).
  pose proof (len_nonneg post). pose proof (len_nonneg tagName).
  pose proof len_tagged_line as Hlen.
  assert (Hlo : len o = len tagName + 2) by apply len_openTag.
  assert (Hlc : len cl = len tagName + 3) by apply len_closeTag.
  pose proof collapse_result as Hres. unfold L in Hres.
  unfold toggleTag. rewrite (caret_in_body j Hhead) by lia. cbn [line ch].
  rewrite (getLine_onLine ed top ln rest Hline).
  replace (len pre + len o + j + (len tagName + 1))
    with (len pre + len o + (j + (len tagName + 1))) by lia.
  rewrite scans_inside by lia. cbn [index whole].
  rewrite slice_between by lia.
  replace (len pre + len o + (j + (len tagName + 1))
           + (len body - (j + (len tagName + 1))))
    with (len pre + len o + len body) by lia.
  rewrite between_body.
  replace (len pre + len o + len body + len (closeTag tagName))
    with (len pre + len o + len body + len cl) by reflexivity.
  replace (len pre + len o + j
           - Z.min (len pre + len o + j - len pre) (len (openTag tagName)))
    with (len pre + j) by (fold o; lia).
  rewrite Hres by lia. f_equal; lia.
Qed.

(** When the first slicing cuts the line past the body it loses the
    closing tag; the second slicing, at the caret minus the tag name's
    length minus one, finds both tags when it cuts inside the body. *)
Lemma collapse_second_slicing h j :
  head ed = len top + len pre + len o + j ->
  j <= len body ->
  len body < j + (len tagName + 1) ->
  len tagName + 1 <= j ->
  toggleTag h ed tagName
  = mkEditor (top ++ pre ++ body ++ post ++ rest)
      (len top + len pre + j) (len top + len pre + j).
Proof.
  intros Hhead Hj Hb Hfit.
  pose proof (len_nonneg pre). pose proof (len_nonneg o).
  pose proof (len_nonneg body). pose proof (len_nonneg cl).
  pose proof (len_nonneg post). pose proof (len_nonneg tagName).
  pose proof len_tagged_line as Hlen.
  assert (Hlo : len o = len tagName + 2) by apply len_openTag.
  assert (Hlc : len cl = len tagName + 3) by apply len_closeTag.
  pose proof collapse_result as Hres. unfold L in Hres.
  unfold toggleTag. rewrite (caret_in_body j Hhead) by lia. cbn [line ch].
  rewrite (getLine_onLine ed top ln rest Hline).
  assert (Hnone : snd (scans tagName ln (len pre + len o + j + (len tagName + 1)))
                  = None).
  { unfold scans. cbn [snd].
    replace (len pre + len o + j + (len tagName + 1))
      with (len pre + len o + len body + (j + (len tagName + 1) - len body)) by lia.
    apply close_scan_cut_short. lia. }
  destruct (scans tagName ln (len pre + len o + j + (len tagName + 1)))
    as [first1 second1].
  cbn [snd] in Hnone. subst second1.
  replace (len pre + len o + j - (len tagName + 1))
    with (len pre + len o + (j - (len tagName + 1))) by lia.
  rewrite scans_inside by lia. cbn [index whole].
  rewrite slice_between by lia.
  replace (len pre + len o + (j - (len tagName + 1))
           + (len body - (j - (len tagName + 1))))
    with (len pre + len o + len body) by lia.
  rewrite between_body.
  replace (len pre + len o + len body + len (closeTag tagName))
    with (len pre + len o + len body + len cl) by reflexivity.
  replace (len pre + len o + j
           - (Z.max 0 (len tagName + 1 - (len body - (j - (len tagName + 1))))
              + len (openTag tagName)))
    with (len pre + j) by (fold o; lia).
  destruct first1; rewrite Hres by lia; f_equal; lia.
Qed.

(** X8: on a line whose only [<] are those of one [<tag>body</tag>],
    a cursor in the body that is at least the tag name's length plus
    one away from the start or from the end of the body makes
    [toggleTag] remove both tags, whatever is selected; the cursor
    becomes a caret at the same place in the body. *)
Theorem toggleTag_collapse h j :
  head ed = len top + len pre + len o + j ->
  0 <= j <= len body ->
  j + (len tagName + 1) <= len body \/ len tagName + 1 <= j ->
  toggleTag h ed tagName
  = mkEditor (top ++ pre ++ body ++ post ++ rest)
      (len top + len pre + j) (len top + len pre + j).
Proof.
  intros Hhead Hj Hfit.
  destruct (Z.le_gt_cases (j + (len tagName + 1)) (len body)) as [Ha|Hb].
  - apply collapse_first_slicing; [assumption | lia | assumption].
  - destruct Hfit as [Hfit|Hfit]; [lia|].
    apply collapse_second_slicing; [assumption | lia | lia | assumption].
Qed.


Lemma isPrefix_length p s :
  isPrefix p s = true -> (List.length p <= List.length s)%nat.
Proof.
  revert s. induction p as [|a p IH]; intros [|b s] H; cbn in *; try lia;
    try discriminate.
  apply andb_prop in H. destruct H as [_ H]. apply IH in H. lia.
Qed.

(** The opening scan fails when the line is cut inside the opening tag. *)
Lemma open_scan_cut_short n :
  1 <= n < len o ->
  checkTagOpen tagName (slice ln 0 (len pre + n)) = None.
Proof.
  intros Hn.
  pose proof (len_nonneg pre). pose proof (len_nonneg body).
  pose proof (len_nonneg cl). pose proof (len_nonneg post).
  pose proof len_tagged_line as Hlen.
  rewrite slice_prefix by lia. unfold ln.
  rewrite take_app_len, take_app_short by lia.
  unfold checkTagOpen.
  rewrite (search_lacks _ _ pre _ 0 (checkTagOpenAt_needs tagName) Hpre).
  replace (Z.to_nat n) with (S (Z.to_nat (n - 1))) by lia.
  unfold o, openTag.
  change (lit "<" ++ tagName ++ lit ">") with ("<"%char :: tagName ++ lit ">").
  cbn [firstn search].
  assert (Hhere : checkTagOpenAt tagName
                    ("<"%char :: firstn (Z.to_nat (n - 1)) (tagName ++ lit ">"))
                  = None).
  { unfold checkTagOpenAt.
    destruct (isPrefix (openTag tagName) _) eqn:Ep; [|reflexivity].
    apply isPrefix_length in Ep. exfalso.
    pose proof (len_openTag tagName) as Hlo. fold o in Hlo.
    unfold len in Hlo, Hn. cbn [List.length] in Ep.
    rewrite length_firstn in Ep. fold o in Ep. lia. }
  rewrite Hhere.
  apply (search_none _ "<"%char); [apply checkTagOpenAt_needs|].
  apply lacks_firstn. rewrite lacks_app, Htag. reflexivity.
Qed.

(** X9: on the same line, a cursor in the body that is closer than the
    tag name's length plus one to both ends of the body is not seen as
    inside the tags: [toggleTag] takes the wrap path and inserts the
    tags once more. *)
Theorem toggleTag_short_body h j :
  head ed = len top + len pre + len o + j ->
  0 <= j <= len body ->
  len body < j + (len tagName + 1) ->
  j < len tagName + 1 ->
  toggleTag h ed tagName = applySelection (wrapSelection h o cl ed).
Proof.
  intros Hhead Hj Hlate Hearly.
  pose proof (len_nonneg pre). pose proof (len_nonneg o).
  pose proof (len_nonneg body). pose proof (len_nonneg tagName).
  assert (Hlo : len o = len tagName + 2) by apply len_openTag.
  assert (Hlc : len cl = len tagName + 3) by apply len_closeTag.
  assert (Hcur : getCursor ed
                 = mkPos (Z.of_nat (lineBreaks top)) (len pre + len o + j)).
  { rewrite (getCursor_onLine ed top ln rest Hline)
      by (pose proof len_tagged_line; pose proof (len_nonneg cl);
          pose proof (len_nonneg post); lia).
    f_equal. lia. }
  apply toggleTag_falls_through; rewrite Hcur; cbn [line ch];
    rewrite (getLine_onLine ed top ln rest Hline); unfold collapses, scans.
  - replace (len pre + len o + j + (len tagName + 1))
      with (len pre + len o + len body + (j + (len tagName + 1) - len body)) by lia.
    rewrite close_scan_cut_short by lia.
    now destruct (checkTagOpen _ _).
  - replace (len pre + len o + j - (len tagName + 1)) with (len pre + (j + 1)) by lia.
    now rewrite open_scan_cut_short by lia.
Qed.

End Collapse.


Lemma lacks_slice c s a b : lacks c s = true -> lacks c (slice s a b) = true.
Proof. intros H. unfold slice. now apply lacks_firstn, lacks_skipn. Qed.

Lemma lacks_sliceFrom c s a : lacks c s = true -> lacks c (sliceFrom s a) = true.
Proof. intros H. unfold sliceFrom. now apply lacks_skipn. Qed.

(** A line without [<] has nothing to collapse. *)
Lemma collapses_lacks tagName ln cut :
  lacks "<" ln = true -> collapses tagName ln cut = false.
Proof.
  intros H. unfold collapses, scans, checkTagOpen.
  rewrite (search_none _ "<"%char _ 0 (checkTagOpenAt_needs tagName)
             (lacks_slice _ _ 0 cut H)).
  reflexivity.
Qed.

Lemma noLineBreak_closeTag tagName :
  noLineBreak tagName = true -> noLineBreak (closeTag tagName) = true.
Proof.
  intros H. unfold closeTag. rewrite !noLineBreak_app, H. reflexivity.
Qed.

Lemma noLineBreak_parts3 a b c :
  noLineBreak (a ++ b ++ c) = true ->
  noLineBreak a = true /\ noLineBreak b = true /\ noLineBreak c = true.
Proof.
  rewrite !noLineBreak_app. intros H.
  apply andb_prop in H. destruct H as [Ha H].
  apply andb_prop in H. now destruct H.
Qed.

(** The word under the caret is wrapped in the tags, the caret staying
    where it was in the word. *)
Lemma toggleTag_wraps_word h ed top pre w post rest tagName j :
  onLine ed top (pre ++ w ++ post) rest ->
  lacks "<" (pre ++ w ++ post) = true ->
  noLineBreak tagName = true ->
  anchor ed = head ed ->
  head ed = len top + len pre + j ->
  0 <= j <= len w ->
  wordAt h (getCursor ed)
  = Some (mkPos (Z.of_nat (lineBreaks top)) (len pre),
          mkPos (Z.of_nat (lineBreaks top)) (len pre + len w)) ->
  toggleTag h ed tagName
  = mkEditor
      (top ++ pre ++ openTag tagName ++ w ++ closeTag tagName ++ post ++ rest)
      (len top + len pre + len (openTag tagName) + j)
      (len top + len pre + len (openTag tagName) + j).
Proof.
  intros Hline Hlacks Hnl Hcaret Hhead Hj Hword.
  pose proof (len_nonneg pre). pose proof (len_nonneg w).
  pose proof (len_nonneg post). pose proof (len_nonneg (openTag tagName)).
  pose proof (len_nonneg (closeTag tagName)).
  assert (Hlen : len (pre ++ w ++ post) = len pre + len w + len post).
  { rewrite !len_app. lia. }
  assert (Hcur : getCursor ed
                 = mkPos (Z.of_nat (lineBreaks top)) (len pre + j)).
  { rewrite (getCursor_onLine ed top _ rest Hline) by lia. f_equal. lia. }
  rewrite toggleTag_falls_through
    by (rewrite Hcur; cbn [line ch];
        rewrite (getLine_onLine ed top _ rest Hline); now apply collapses_lacks).
  unfold wrapSelection, somethingSelected. rewrite Hword, Hcaret, Z.eqb_refl.
  cbn [negb fst snd]. rewrite Hcur. cbn [line ch].
  set (text := openTag tagName ++ _ ++ closeTag tagName).
  set (ed' := replaceRange ed text _ _).
  assert (Htext : text = openTag tagName ++ w ++ closeTag tagName).
  { subst text. unfold getRange.
    rewrite !(posToOffset_onLine ed top _ rest _ Hline) by lia.
    destruct Hline as (Hd & _). rewrite Hd.
    replace (top ++ (pre ++ w ++ post) ++ rest)
      with ((top ++ pre) ++ w ++ post ++ rest) by (now rewrite <- !app_assoc).
    replace (len top + len pre) with (len (top ++ pre)) by apply len_app.
    replace (len top + (len pre + len w)) with (len (top ++ pre) + len w)
      by (rewrite len_app; lia).
    now rewrite between_app. }
  assert (Hdoc : doc ed'
                 = top ++ (pre ++ openTag tagName ++ w ++ closeTag tagName ++ post)
                   ++ rest).
  { subst ed'. rewrite doc_replaceRange.
    rewrite !(posToOffset_onLine ed top _ rest _ Hline) by lia.
    rewrite Z.max_r by lia. rewrite Htext.
    destruct Hline as (Hd & _). rewrite Hd.
    replace (top ++ (pre ++ w ++ post) ++ rest)
      with ((top ++ pre) ++ w ++ post ++ rest) by (now rewrite <- !app_assoc).
    replace (len top + len pre) with (len (top ++ pre)) by apply len_app.
    replace (len top + (len pre + len w)) with (len (top ++ pre) + len w)
      by (rewrite len_app; lia).
    rewrite splice_app. now rewrite <- !app_assoc. }
  assert (Hsel : anchor ed' = head ed').
  { subst ed'. unfold replaceRange. now rewrite Hcaret, Z.eqb_refl. }
  rewrite Hsel, Z.eqb_refl. cbn [negb].
  unfold applySelection. cbn [fst snd]. unfold setSelection.
  assert (Hline' : onLine ed' top
                     (pre ++ openTag tagName ++ w ++ closeTag tagName ++ post) rest).
  { destruct Hline as (_ & He & Hn & Hs). repeat split; try assumption.
    destruct (noLineBreak_parts3 _ _ _ Hn) as (Hp & Hw & Hpo).
    rewrite !noLineBreak_app, Hp, Hw, Hpo.
    now rewrite noLineBreak_openTag, noLineBreak_closeTag. }
  rewrite (posToOffset_onLine ed' top _ rest _ Hline') by (rewrite !len_app; lia).
  rewrite Hdoc. rewrite <- !app_assoc. f_equal; lia.
Qed.

Lemma lacks_parts3 c x y z :
  lacks c (x ++ y ++ z) = true ->
  lacks c x = true /\ lacks c y = true /\ lacks c z = true.
Proof.
  rewrite !lacks_app. intros H.
  apply andb_prop in H. destruct H as [Ha H].
  apply andb_prop in H. now destruct H.
Qed.

(** X10: on a line without [<], [toggleTag] with the caret in a word
    wraps the word in the tags and moves the caret by the opening tag's
    length; a second [toggleTag] gives back the first editor, text and
    caret, when the caret is far enough from one end of the word. *)
Theorem toggleTag_twice h h' ed top pre w post rest tagName j :
  onLine ed top (pre ++ w ++ post) rest ->
  lacks "<" (pre ++ w ++ post) = true ->
  lacks "<" tagName = true ->
  noLineBreak tagName = true ->
  anchor ed = head ed ->
  head ed = len top + len pre + j ->
  0 <= j <= len w ->
  j + (len tagName + 1) <= len w \/ len tagName + 1 <= j ->
  wordAt h (getCursor ed)
  = Some (mkPos (Z.of_nat (lineBreaks top)) (len pre),
          mkPos (Z.of_nat (lineBreaks top)) (len pre + len w)) ->
  doc (toggleTag h ed tagName)
  = top ++ pre ++ openTag tagName ++ w ++ closeTag tagName ++ post ++ rest
  /\ head (toggleTag h ed tagName) = head ed + len (openTag tagName)
  /\ toggleTag h' (toggleTag h ed tagName) tagName = ed.
Proof.
  intros Hline Hlacks Htag Hnl Hcaret Hhead Hj Hfit Hword.
  rewrite (toggleTag_wraps_word h ed top pre w post rest tagName j) by assumption.
  cbn [doc head]. split; [reflexivity|]. split; [lia|].
  destruct (lacks_parts3 _ _ _ _ Hlacks) as (Hp & Hw & Hpo).
  set (ed1 := mkEditor _ _ _).
  assert (Hline1 : onLine ed1 top
                     (pre ++ openTag tagName ++ w ++ closeTag tagName ++ post) rest).
  { destruct Hline as (_ & He & Hn & Hs). repeat split; try assumption.
    - cbn [doc ed1]. now rewrite <- !app_assoc.
    - destruct (noLineBreak_parts3 _ _ _ Hn) as (Hp' & Hw' & Hpo').
      rewrite !noLineBreak_app, Hp', Hw', Hpo'.
      now rewrite noLineBreak_openTag, noLineBreak_closeTag. }
  assert (Hback : mkEditor (top ++ pre ++ w ++ post ++ rest)
                    (len top + len pre + j) (len top + len pre + j) = ed).
  { destruct ed as [d a hd]. cbn [anchor head doc] in *.
    destruct Hline as (Hd & _). cbn [doc] in Hd. subst.
    f_equal. now rewrite <- !app_assoc. }
  assert (Hhead1 : head ed1 = len top + len pre + len (openTag tagName) + j)
    by (cbn [head ed1]; lia).
  etransitivity; [|exact Hback].
  destruct (Z.le_gt_cases (j + (len tagName + 1)) (len w)) as [Ha|Hb].
  - apply (collapse_first_slicing ed1 top pre w post rest tagName Hline1);
      solve [assumption | lia].
  - destruct Hfit as [Hfit|Hfit]; [lia|].
    apply (collapse_second_slicing ed1 top pre w post rest tagName Hline1);
      solve [assumption | lia].
Qed.


(** *** [toggleLink] *)

Lemma mdLinkAt_needs : needsFirst mdLinkAt "[".
Proof.
  intros [|x s] Hs; [reflexivity|]. unfold mdLinkAt. now rewrite Hs.
Qed.

Lemma wikiLinkAt_needs : needsFirst wikiLinkAt "[".
Proof.
  intros s Hs. unfold wikiLinkAt.
  change (lit "[[") with ("["%char :: lit "[").
  now rewrite (isPrefix_first _ _ s Hs).
Qed.

Lemma upTo_lacks stop run rest :
  lacks stop run = true -> upTo stop (run ++ stop :: rest) = Some (run, rest).
Proof.
  induction run as [|c run IH]; intros H.
  - cbn. now rewrite Ascii.eqb_refl.
  - cbn in H. apply andb_prop in H. destruct H as [Hc H].
    apply negb_true_iff in Hc. cbn [app upTo]. now rewrite Hc, (IH H).
Qed.

Lemma mdLinkAt_link text url post :
  lacks "]" text = true -> lacks ")" url = true ->
  mdLinkAt (mdLink text url ++ post) = Some (mdLink text url, text).
Proof.
  intros Ht Hu. unfold mdLink.
  change ((lit "[" ++ text ++ lit "](" ++ url ++ lit ")") ++ post)
    with ("["%char :: (text ++ lit "](" ++ url ++ lit ")") ++ post).
  unfold mdLinkAt. rewrite Ascii.eqb_refl.
  replace ((text ++ lit "](" ++ url ++ lit ")") ++ post)
    with (text ++ "]"%char :: "("%char :: url ++ ")"%char :: post)
    by (now rewrite <- !app_assoc).
  rewrite (upTo_lacks _ _ _ Ht), Ascii.eqb_refl, (upTo_lacks _ _ _ Hu).
  reflexivity.
Qed.

(** X11: with the caret in a span rendered as a link or URL, on a line
    without an opening bracket, [toggleLink] changes nothing and asks
    for no link to be inserted. *)
Theorem toggleLink_without_brackets h ed :
  selType h <> NoSelection ->
  closest h ["cm-link"; "cm-url"] <> None
  \/ closest h ["cm-hmd-internal-link"] <> None ->
  lacks "[" (getLine ed (line (getCursor ed))) = true ->
  toggleLink h ed = Some (Ok (mkLinkOutcome ed false)).
Proof.
  intros Hsel Hctx Hl. unfold toggleLink.
  assert (Hmd : mdLinkLoop (S (List.length (getLine ed (line (getCursor ed))))) ed
                  (getCursor ed) (getLine ed (line (getCursor ed))) 0 = Miss).
  { cbn [mdLinkLoop].
    now rewrite (search_none _ "["%char _ 0 mdLinkAt_needs
                   (lacks_sliceFrom _ _ 0 Hl)). }
  assert (Hwiki : wikiLinkLoop (S (List.length (getLine ed (line (getCursor ed))))) ed
                    (getCursor ed) (getLine ed (line (getCursor ed))) 0 = Miss).
  { cbn [wikiLinkLoop].
    now rewrite (search_none _ "["%char _ 0 wikiLinkAt_needs
                   (lacks_sliceFrom _ _ 0 Hl)). }
  rewrite Hmd, Hwiki.
  destruct (selType h); try (now elim Hsel);
    destruct (closest h ["cm-link"; "cm-url"]); try reflexivity;
    destruct (closest h ["cm-hmd-internal-link"]); try reflexivity;
    destruct Hctx as [Hc|Hc]; now elim Hc.
Qed.

(** Replacing a stretch of the caret's line and putting the caret on
    the line. *)
Lemma replace_on_line ed top pre mid post rest text q :
  onLine ed top (pre ++ mid ++ post) rest ->
  noLineBreak text = true ->
  0 <= q <= len pre + len text + len post ->
  setCursor
    (replaceRange ed text (mkPos (Z.of_nat (lineBreaks top)) (len pre))
       (mkPos (Z.of_nat (lineBreaks top)) (len pre + len mid)))
    (mkPos (Z.of_nat (lineBreaks top)) q)
  = mkEditor (top ++ pre ++ text ++ post ++ rest) (len top + q) (len top + q).
Proof.
  intros Hline Hnt Hq.
  pose proof (len_nonneg pre). pose proof (len_nonneg mid).
  pose proof (len_nonneg post). pose proof (len_nonneg text).
  assert (Hlen : len (pre ++ mid ++ post) = len pre + len mid + len post).
  { rewrite !len_app. lia. }
  set (ed' := replaceRange ed text _ _).
  assert (Hdoc : doc ed' = top ++ (pre ++ text ++ post) ++ rest).
  { subst ed'. rewrite doc_replaceRange.
    rewrite !(posToOffset_onLine ed top _ rest _ Hline) by lia.
    rewrite Z.max_r by lia.
    destruct Hline as (Hd & _). rewrite Hd.
    replace (top ++ (pre ++ mid ++ post) ++ rest)
      with ((top ++ pre) ++ mid ++ post ++ rest) by (now rewrite <- !app_assoc).
    replace (len top + len pre) with (len (top ++ pre)) by apply len_app.
    replace (len top + (len pre + len mid)) with (len (top ++ pre) + len mid)
      by (rewrite len_app; lia).
    rewrite splice_app. now rewrite <- !app_assoc. }
  assert (Hline' : onLine ed' top (pre ++ text ++ post) rest).
  { destruct Hline as (_ & He & Hn & Hs). repeat split; try assumption.
    destruct (noLineBreak_parts3 _ _ _ Hn) as (Hp & _ & Hpo).
    now rewrite !noLineBreak_app, Hp, Hnt, Hpo. }
  unfold setCursor, setSelection.
  rewrite (posToOffset_onLine ed' top _ rest q Hline') by (rewrite !len_app; lia).
  rewrite Hdoc. now rewrite <- !app_assoc.
Qed.

Lemma len_mdLink text url : len (mdLink text url) = len text + len url + 4.
Proof.
  unfold mdLink. rewrite !len_app.
  change (len (lit "[")) with 1. change (len (lit "](")) with 2.
  change (len (lit ")")) with 1. lia.
Qed.

Lemma noLineBreak_mdLink_text text url :
  noLineBreak (mdLink text url) = true -> noLineBreak text = true.
Proof.
  unfold mdLink. rewrite !noLineBreak_app. intros H.
  apply andb_prop in H. destruct H as [_ H].
  apply andb_prop in H. now destruct H.
Qed.

(** X12: the first markdown link of a line, with a non-empty text and
    the caret in it or right after it, is replaced by its text, the rest
    of the document unchanged, and the caret ends on a unit of that
    text. *)
Theorem toggleLink_collapse h ed top pre text url post rest c :
  onLine ed top (pre ++ mdLink text url ++ post) rest ->
  lacks "[" pre = true -> lacks "]" text = true -> lacks ")" url = true ->
  text <> [] ->
  head ed = len top + c ->
  len pre <= c <= len pre + len (mdLink text url) ->
  selType h <> NoSelection ->
  closest h ["cm-link"; "cm-url"] <> None ->
  let q := caretAfter c (len pre) text 1 in
  toggleLink h ed
  = Some (Ok (mkLinkOutcome
                (mkEditor (top ++ pre ++ text ++ post ++ rest)
                   (len top + q) (len top + q))
                false))
  /\ len pre <= q <= len pre + len text - 1.
Proof.
  intros Hline Hpre Htext Hurl Hne Hhead Hc Hsel Hctx q.
  pose proof (len_nonneg pre). pose proof (len_nonneg text).
  pose proof (len_nonneg url). pose proof (len_nonneg post).
  pose proof (len_mdLink text url) as Hll.
  assert (Hq : len pre <= q <= len pre + len text - 1).
  { apply caretAfter_within; [assumption|lia]. }
  split; [|exact Hq].
  assert (Hlen : len (pre ++ mdLink text url ++ post)
                 = len pre + len (mdLink text url) + len post).
  { rewrite !len_app. lia. }
  assert (Hcur : getCursor ed = mkPos (Z.of_nat (lineBreaks top)) c).
  { rewrite (getCursor_onLine ed top _ rest Hline) by lia. f_equal. lia. }
  unfold toggleLink. rewrite Hcur. cbn [line ch].
  rewrite (getLine_onLine ed top _ rest Hline).
  cbn [mdLinkLoop]. rewrite sliceFrom_inside by lia. cbn [Z.to_nat skipn].
  rewrite (search_lacks _ _ pre _ 0 mdLinkAt_needs Hpre).
  rewrite (search_here _ _ _ _ _ (mdLinkAt_link text url post Htext Hurl)).
  cbn [index whole group1 line ch].
  assert (Hin : ((c >=? 0 + (0 + len pre)) && (c <? 0 + (0 + len pre) + len (mdLink text url))
                 || (c >? 0 + (0 + len pre)) && (c <=? 0 + (0 + len pre) + len (mdLink text url)))
                = true).
  { apply orb_true_iff.
    destruct (Z.eq_dec c (len pre + len (mdLink text url))) as [E|E].
    - right. apply andb_true_intro. split; lia.
    - left. apply andb_true_intro. split; lia. }
  rewrite Hin.
  replace (0 + (0 + len pre)) with (len pre) by lia. fold q.
  assert (Hres : finishScan ed
                   (Hit (replaceRange ed text
                           (mkPos (Z.of_nat (lineBreaks top)) (len pre))
                           (mkPos (Z.of_nat (lineBreaks top))
                              (len pre + len (mdLink text url))))
                        (mkPos (Z.of_nat (lineBreaks top)) q))
                 = Some (mkLinkOutcome
                           (mkEditor (top ++ pre ++ text ++ post ++ rest)
                              (len top + q) (len top + q)) false)).
  { cbn [finishScan]. f_equal. f_equal.
    apply (replace_on_line ed top pre (mdLink text url) post rest text q Hline);
      [|lia].
    destruct Hline as (_ & _ & Hn & _).
    destruct (noLineBreak_parts3 _ _ _ Hn) as (_ & Hm & _).
    now apply (noLineBreak_mdLink_text text url). }
  rewrite Hres.
  destruct (selType h); try (now elim Hsel);
    destruct (closest h ["cm-link"; "cm-url"]); try reflexivity; now elim Hctx.
Qed.


Lemma lazyToClose_inner inner post :
  lacks "]" inner = true -> oneLine inner = true ->
  lazyToClose (inner ++ lit "]]" ++ post) = Some inner.
Proof.
  induction inner as [|x inner IH]; intros Hl Ho.
  - reflexivity.
  - cbn in Hl, Ho. apply andb_prop in Hl. destruct Hl as [Hx Hl].
    apply andb_prop in Ho. destruct Ho as [Hy Ho].
    apply negb_true_iff in Hx. apply negb_true_iff in Hy.
    cbn [app lazyToClose].
    change (lit "]]") with ("]"%char :: lit "]").
    rewrite (isPrefix_first (lit "]") "]"%char (x :: inner ++ _) Hx), Hy.
    change ("]"%char :: lit "]") with (lit "]]").
    now rewrite (IH Hl Ho).
Qed.

Lemma wikiLinkAt_link inner post :
  lacks "]" inner = true -> oneLine inner = true ->
  wikiLinkAt (wikiLink inner ++ post) = Some (wikiLink inner, inner).
Proof.
  intros Hl Ho. unfold wikiLinkAt, wikiLink.
  rewrite <- !app_assoc, isPrefix_app.
  change (skipn 2 (lit "[[" ++ inner ++ lit "]]" ++ post))
    with (inner ++ lit "]]" ++ post).
  now rewrite (lazyToClose_inner inner post Hl Ho).
Qed.

Lemma upTo_none stop s : lacks stop s = true -> upTo stop s = None.
Proof.
  induction s as [|c s IH]; intros H; [reflexivity|].
  cbn in H. apply andb_prop in H. destruct H as [Hc H].
  apply negb_true_iff in Hc. cbn [upTo]. now rewrite Hc, (IH H).
Qed.

Lemma hasPipe_lacks s : lacks "|" s = true -> hasPipe s = false.
Proof.
  induction s as [|c s IH]; intros H; [reflexivity|].
  cbn in H. apply andb_prop in H. destruct H as [Hc H].
  apply negb_true_iff in Hc. cbn [hasPipe existsb].
  rewrite Ascii.eqb_sym, Hc. now apply IH.
Qed.

Lemma hasPipe_alias target alias :
  hasPipe (target ++ lit "|" ++ alias) = true.
Proof.
  unfold hasPipe. rewrite existsb_app. cbn. now rewrite orb_true_r.
Qed.

Lemma afterPipe_alias target alias :
  lacks "|" target = true -> lacks "|" alias = true ->
  afterPipe (target ++ lit "|" ++ alias) = alias.
Proof.
  intros Ht Ha. unfold afterPipe.
  change (target ++ lit "|" ++ alias) with (target ++ "|"%char :: alias).
  now rewrite (upTo_lacks _ _ _ Ht), (upTo_none _ _ Ha).
Qed.

Lemma caretAfter_on_text c s text skip :
  text <> [] -> s <= c -> 0 <= skip ->
  s <= caretAfter c s text skip <= s + len text - 1.
Proof.
  intros Ht Hc Hs. unfold caretAfter.
  assert (0 < len text) by (destruct text; [easy | unfold len; cbn; lia]).
  destruct (Z.geb_spec c (s + len text)); [lia|].
  destruct (Z.gtb_spec c (s + skip)); lia.
Qed.

(** X13: the first wiki link of a line, with the caret in it, is
    replaced by its alias when it has one and by its whole inner text
    otherwise, and the caret ends on a unit of what is left. *)
Theorem toggleLink_wiki h ed top pre inner shown post rest c :
  onLine ed top (pre ++ wikiLink inner ++ post) rest ->
  lacks "[" pre = true -> lacks "]" inner = true -> oneLine inner = true ->
  (lacks "|" inner = true /\ shown = inner)
  \/ (exists target, inner = target ++ lit "|" ++ shown
                     /\ lacks "|" target = true /\ lacks "|" shown = true) ->
  shown <> [] ->
  head ed = len top + c ->
  len pre <= c < len pre + len (wikiLink inner) ->
  selType h <> NoSelection ->
  closest h ["cm-link"; "cm-url"] = None ->
  closest h ["cm-hmd-internal-link"] <> None ->
  let q := caretAfter c (len pre) shown 2 in
  toggleLink h ed
  = Some (Ok (mkLinkOutcome
                (mkEditor (top ++ pre ++ shown ++ post ++ rest)
                   (len top + q) (len top + q))
                false))
  /\ len pre <= q <= len pre + len shown - 1.
Proof.
  intros Hline Hpre Hinner Hone Hshown Hne Hhead Hc Hsel Hmd Hctx q.
  pose proof (len_nonneg pre). pose proof (len_nonneg shown).
  pose proof (len_nonneg inner). pose proof (len_nonneg post).
  assert (Hq : len pre <= q <= len pre + len shown - 1).
  { apply caretAfter_on_text; [assumption|lia|lia]. }
  split; [|exact Hq].
  assert (Hlen : len (pre ++ wikiLink inner ++ post)
                 = len pre + len (wikiLink inner) + len post).
  { rewrite !len_app. lia. }
  assert (Hpick : (if hasPipe inner then afterPipe inner else inner) = shown).
  { destruct Hshown as [[Hl ->]|(target & -> & Ht & Ha)].
    - now rewrite hasPipe_lacks.
    - now rewrite hasPipe_alias, afterPipe_alias. }
  assert (Hnl : noLineBreak shown = true).
  { destruct Hline as (_ & _ & Hn & _).
    destruct (noLineBreak_parts3 _ _ _ Hn) as (_ & Hm & _).
    unfold wikiLink in Hm.
    destruct (noLineBreak_parts3 _ _ _ Hm) as (_ & Hi & _).
    destruct Hshown as [[_ ->]|(target & -> & _)]; [assumption|].
    now destruct (noLineBreak_parts3 _ _ _ Hi) as (_ & _ & Hs). }
  assert (Hls : len shown <= len inner).
  { destruct Hshown as [[_ ->]|(target & -> & _)]; [lia|].
    rewrite !len_app. pose proof (len_nonneg target).
    pose proof (len_nonneg (lit "|")). lia. }
  assert (Hlw : len (wikiLink inner) = len inner + 4).
  { unfold wikiLink. rewrite !len_app.
    change (len (lit "[[")) with 2. change (len (lit "]]")) with 2. lia. }
  assert (Hcur : getCursor ed = mkPos (Z.of_nat (lineBreaks top)) c).
  { rewrite (getCursor_onLine ed top _ rest Hline) by lia. f_equal. lia. }
  unfold toggleLink. rewrite Hcur. cbn [line ch].
  rewrite (getLine_onLine ed top _ rest Hline), Hmd.
  cbn [wikiLinkLoop]. rewrite sliceFrom_inside by lia. cbn [Z.to_nat skipn].
  rewrite (search_lacks _ _ pre _ 0 wikiLinkAt_needs Hpre).
  rewrite (search_here _ _ _ _ _ (wikiLinkAt_link inner post Hinner Hone)).
  cbn [index whole group1 line ch]. rewrite Hpick.
  assert (Hin : (c >=? 0 + (0 + len pre))
                && (c <? 0 + (0 + len pre) + len (wikiLink inner)) = true).
  { apply andb_true_intro. split; lia. }
  rewrite Hin.
  replace (0 + (0 + len pre)) with (len pre) by lia. fold q.
  cbn [finishScan].
  rewrite (replace_on_line ed top pre (wikiLink inner) post rest shown q Hline Hnl)
    by lia.
  destruct (selType h); try (now elim Hsel);
    destruct (closest h ["cm-hmd-internal-link"]); try reflexivity; now elim Hctx.
Qed.


(** *** [toggleStyle]: comments *)

Lemma strEqb_length x y :
  strEqb x y = true -> List.length x = List.length y.
Proof.
  revert y. induction x as [|a x IH]; intros [|b y] H; cbn in H;
    try discriminate; [reflexivity|].
  apply andb_prop in H. destruct H as [_ H]. cbn. now rewrite (IH y H).
Qed.

Lemma strEqb_refl x : strEqb x x = true.
Proof. induction x as [|a x IH]; [reflexivity|]. cbn. now rewrite Ascii.eqb_refl. Qed.

Lemma dropSpaces_spaces n t :
  startsTrimmed t = true -> dropSpaces (spaces n ++ t) = t.
Proof.
  intros Ht. induction n as [|n IH]; [|exact IH].
  cbn [spaces repeat app]. destruct t as [|c t]; [reflexivity|].
  cbn in Ht. apply negb_true_iff in Ht. cbn [dropSpaces]. now rewrite Ht.
Qed.

Lemma dropSpaces_short s t :
  s <> [] -> endsTrimmed s = true -> (3 <= List.length t)%nat ->
  (4 <= List.length (dropSpaces (s ++ t)))%nat.
Proof.
  intros Hne He Ht. induction s as [|c s IH]; [easy|].
  cbn [app dropSpaces]. destruct (Ascii.eqb c " ") eqn:Ec.
  - destruct s as [|c' s'].
    + cbn in He. now rewrite Ec in He.
    + apply IH; [discriminate | exact He].
  - cbn [List.length]. rewrite length_app. lia.
Qed.

Lemma stripCommentClose_body body b :
  endsTrimmed body = true ->
  stripCommentClose (body ++ spaces b ++ lit "-->") = body.
Proof.
  induction body as [|c body IH]; intros He.
  - cbn [app].
    assert (Hd : dropSpaces (spaces b ++ lit "-->") = lit "-->")
      by now apply dropSpaces_spaces.
    destruct (spaces b ++ lit "-->") as [|x t] eqn:E.
    + destruct b; discriminate E.
    + cbn [stripCommentClose]. now rewrite Hd, strEqb_refl.
  - cbn [app stripCommentClose].
    destruct (strEqb (dropSpaces (c :: body ++ spaces b ++ lit "-->")) (lit "-->"))
      eqn:Es.
    + apply strEqb_length in Es.
      pose proof (dropSpaces_short (c :: body) (spaces b ++ lit "-->")
                    ltac:(discriminate) He) as Hlen.
      cbn [app] in Hlen. rewrite Es in Hlen. cbn in Hlen.
      rewrite length_app in Hlen. cbn in Hlen. lia.
    + f_equal. apply IH. destruct body; [reflexivity | exact He].
Qed.

Lemma stripComment_comment a b body :
  startsTrimmed body = true -> endsTrimmed body = true ->
  stripComment (comment a b body) = body.
Proof.
  intros Hs He. unfold stripComment, stripCommentOpen, comment.
  rewrite isPrefix_app.
  change (skipn 4 (lit "<!--" ++ spaces a ++ body ++ spaces b ++ lit "-->"))
    with (spaces a ++ body ++ spaces b ++ lit "-->").
  destruct body as [|c body].
  - cbn [app]. rewrite app_assoc.
    replace (spaces a ++ spaces b) with (spaces (a + b))
      by (unfold spaces; now rewrite repeat_app).
    rewrite dropSpaces_spaces by reflexivity.
    apply (stripCommentClose_body [] 0 eq_refl).
  - rewrite dropSpaces_spaces by exact Hs.
    now apply stripCommentClose_body.
Qed.

(** X14: with the caret in a comment node whose text is the two markers
    around a body padded by any number of spaces, toggling [comment]
    replaces the node by the body without the padding. *)
Theorem toggleStyle_comment_collapse h ed n pre a b body post :
  selType h = Caret ->
  detect h "comment" = CommentNode n ->
  doc ed = pre ++ comment a b body ++ post ->
  posAtStart n = len pre ->
  posAtEnd n = len pre + len (comment a b body) ->
  startsTrimmed body = true ->
  endsTrimmed body = true ->
  exists ed',
    toggleStyle h ed "comment" = Ok ed' /\ doc ed' = pre ++ body ++ post.
Proof.
  intros Hsel Hdet Hdoc Hs He Hst Het.
  pose proof (len_nonneg pre). pose proof (len_nonneg (comment a b body)).
  pose proof (len_nonneg post).
  assert (Hlen : len (doc ed) = len pre + len (comment a b body) + len post).
  { rewrite Hdoc, !len_app. lia. }
  unfold toggleStyle. rewrite Hsel, Hdet. eexists. split; [reflexivity|].
  rewrite Hs, He.
  rewrite doc_replace_offsets, getRange_offsets by lia.
  rewrite Hdoc, between_app, splice_app.
  now rewrite stripComment_comment.
Qed.

(** *** [toggleStyle]: wrapping a word and back *)

Lemma styleMap_oneLine style p s :
  styleMap style = Some (p, s) ->
  noLineBreak p = true /\ noLineBreak s = true.
Proof.
  unfold styleMap. intros H.
  repeat match type of H with
         | (if ?b then _ else _) = _ => destruct b
         end;
    try discriminate; injection H as <- <-; split; reflexivity.
Qed.

(** The word under the caret is wrapped in the delimiters, the caret
    staying where it was in the word. *)
Lemma toggleStyle_wraps_word h ed top pre w post rest style p s j :
  onLine ed top (pre ++ w ++ post) rest ->
  styleMap style = Some (p, s) ->
  selType h = Caret ->
  detect h style = Nothing ->
  head ed = len top + len pre + j ->
  0 <= j <= len w ->
  wordAt h (getCursor ed)
  = Some (mkPos (Z.of_nat (lineBreaks top)) (len pre),
          mkPos (Z.of_nat (lineBreaks top)) (len pre + len w)) ->
  toggleStyle h ed style
  = Ok (mkEditor (top ++ pre ++ p ++ w ++ s ++ post ++ rest)
          (head ed + len p) (head ed + len p)).
Proof.
  intros Hline Hmap Hsel Hdet Hhead Hj Hword.
  pose proof (len_nonneg pre). pose proof (len_nonneg w).
  pose proof (len_nonneg post). pose proof (len_nonneg p). pose proof (len_nonneg s).
  destruct (styleMap_oneLine style p s Hmap) as [Hp Hs].
  assert (Hlen : len (pre ++ w ++ post) = len pre + len w + len post).
  { rewrite !len_app. lia. }
  assert (Hcur : getCursor ed
                 = mkPos (Z.of_nat (lineBreaks top)) (len pre + j)).
  { rewrite (getCursor_onLine ed top _ rest Hline) by lia. f_equal. lia. }
  unfold toggleStyle, wrapRange. rewrite Hsel, Hdet, Hword, Hmap. f_equal.
  rewrite Hcur. cbn [line ch].
  assert (Htext : getRange ed (mkPos (Z.of_nat (lineBreaks top)) (len pre))
                    (mkPos (Z.of_nat (lineBreaks top)) (len pre + len w)) = w).
  { unfold getRange.
    rewrite !(posToOffset_onLine ed top _ rest _ Hline) by lia.
    destruct Hline as (Hd & _). rewrite Hd.
    replace (top ++ (pre ++ w ++ post) ++ rest)
      with ((top ++ pre) ++ w ++ post ++ rest) by (now rewrite <- !app_assoc).
    replace (len top + len pre) with (len (top ++ pre)) by apply len_app.
    replace (len top + (len pre + len w)) with (len (top ++ pre) + len w)
      by (rewrite len_app; lia).
    now rewrite between_app. }
  rewrite Htext.
  replace (len pre + len w) with (len pre + len w) by reflexivity.
  rewrite (replace_on_line ed top pre w post rest (p ++ w ++ s)
             (len pre + j + len p) Hline).
  - rewrite <- !app_assoc. f_equal; lia.
  - destruct Hline as (_ & _ & Hn & _).
    destruct (noLineBreak_parts3 _ _ _ Hn) as (_ & Hw & _).
    now rewrite !noLineBreak_app, Hp, Hw, Hs.
  - rewrite !len_app. lia.
Qed.

(** X15: toggling a style on a word at the caret moves the caret by the
    prefix's length; toggling again, once the host renders the marker,
    the word and the marker as three spans, gives back the first editor:
    the text and the caret as well. *)
Theorem toggleStyle_twice_restores h1 h2 ed top pre w post rest style p s j r0 r1 r2 :
  onLine ed top (pre ++ w ++ post) rest ->
  styleMap style = Some (p, s) ->
  selType h1 = Caret ->
  detect h1 style = Nothing ->
  anchor ed = head ed ->
  head ed = len top + len pre + j ->
  0 <= j <= len w ->
  wordAt h1 (getCursor ed)
  = Some (mkPos (Z.of_nat (lineBreaks top)) (len pre),
          mkPos (Z.of_nat (lineBreaks top)) (len pre + len w)) ->
  selType h2 = Caret ->
  detect h2 style = Triple r0 r1 r2 ->
  posAtStart r0 = len top + len pre ->
  textContent r0 = p ->
  textContent r1 = w ->
  posAtStart r2 = len top + len pre + len p + len w ->
  posAtEnd r2 = len top + len pre + len p + len w + len s ->
  exists ed1,
    toggleStyle h1 ed style = Ok ed1
    /\ head ed1 = head ed + len p
    /\ toggleStyle h2 ed1 style = Ok ed.
Proof.
  intros Hline Hmap Hs1 Hd1 Hcaret Hhead Hj Hword Hs2 Hd2 E0 Et0 Et1 E2 E2e.
  pose proof (len_nonneg top). pose proof (len_nonneg pre).
  pose proof (len_nonneg w). pose proof (len_nonneg post).
  pose proof (len_nonneg p). pose proof (len_nonneg s). pose proof (len_nonneg rest).
  eexists. split;
    [apply (toggleStyle_wraps_word h1 ed top pre w post rest style p s j);
     assumption|].
  split; [reflexivity|].
  set (ed1 := mkEditor _ _ _).
  assert (Hdoc1 : doc ed1 = (top ++ pre) ++ (p ++ w ++ s) ++ post ++ rest).
  { subst ed1. cbn [doc]. now rewrite <- !app_assoc. }
  assert (Hlen1 : len (doc ed1)
                  = len top + len pre + (len p + len w + len s) + len post + len rest).
  { rewrite Hdoc1, !len_app. lia. }
  unfold toggleStyle. rewrite Hs2, Hd2. f_equal.
  unfold getCursor.
  rewrite (posToOffset_offsetToPos ed1 (head ed1)) by (subst ed1; cbn [head]; lia).
  rewrite E0, Et0, Et1, E2, E2e.
  set (ed2 := replaceRange ed1 w _ _).
  assert (Hdoc2 : doc ed2 = doc ed).
  { subst ed2. rewrite doc_replace_offsets by lia. rewrite Hdoc1.
    replace (len top + len pre) with (len (top ++ pre)) by apply len_app.
    replace (len (top ++ pre) + len p + len w + len s)
      with (len (top ++ pre) + len (p ++ w ++ s)) by (rewrite !len_app; lia).
    rewrite splice_app. destruct Hline as (Hd & _). rewrite Hd.
    now rewrite <- !app_assoc. }
  assert (Hlen : len (doc ed) = len top + len pre + len w + len post + len rest).
  { destruct Hline as (Hd & _). rewrite Hd, !len_app. lia. }
  unfold setCursor, setSelection.
  assert (Hoff : Z.min (Z.max (head ed1 - len p) (len top + len pre))
                       (len top + len pre + len p + len w - len p)
                 = head ed).
  { subst ed1. cbn [head]. lia. }
  rewrite Hoff.
  rewrite (posToOffset_offsetToPos ed2 (head ed)) by (rewrite Hdoc2; lia).
  rewrite Hdoc2. destruct ed as [d a hd]. cbn [anchor head doc] in *. now subst.
Qed.

(** *** The properties on sample inputs *)

Ltac side :=
  first [ reflexivity
        | unfold onLine; repeat split; reflexivity
        | vm_compute; intuition discriminate
        | left; vm_compute; intuition discriminate
        | right; vm_compute; intuition discriminate
        | lia
        | discriminate ].

Lemma toggleTag_collapse_witness :
  toggleTag (bareHost Caret) taggedEditor (lit "u")
  = mkEditor (lit "one" ++ LF :: lit "ab xyz c" ++ LF :: lit "end") 8 8.
Proof.
  refine (toggleTag_collapse taggedEditor (lit "one" ++ [LF]) (lit "ab ") (lit "xyz")
            (lit " c") (LF :: lit "end") (lit "u") _ _ _ _ _ (bareHost Caret) 1
            _ _ _); side.
Defined.

Lemma toggleTag_short_body_witness :
  doc (toggleTag shortTagHost shortTagEditor (lit "u")) = lit "<u><u>x</u></u>".
Proof.
  rewrite (toggleTag_short_body shortTagEditor [] [] (lit "x") [] [] (lit "u")
             ltac:(side) ltac:(side) ltac:(side) ltac:(side) shortTagHost 0);
    side.
Defined.

Lemma toggleTag_twice_witness :
  doc (toggleTag wordHost wordEditor (lit "u")) = lit "say <u>word</u> now"
  /\ head (toggleTag wordHost wordEditor (lit "u")) = 9
  /\ toggleTag (bareHost Caret) (toggleTag wordHost wordEditor (lit "u")) (lit "u")
     = wordEditor.
Proof.
  refine (toggleTag_twice wordHost (bareHost Caret) wordEditor [] (lit "say ")
            (lit "word") (lit " now") [] (lit "u") 2 _ _ _ _ _ _ _ _ _); side.
Defined.

Lemma toggleLink_without_brackets_witness :
  toggleLink urlHost bareUrlEditor = Some (Ok (mkLinkOutcome bareUrlEditor false)).
Proof. apply toggleLink_without_brackets; side. Defined.

Lemma toggleLink_collapse_witness :
  toggleLink urlHost linkEditor
  = Some (Ok (mkLinkOutcome (mkEditor (lit "intro" ++ LF :: lit "label") 8 8) false)).
Proof.
  refine (proj1 (toggleLink_collapse urlHost linkEditor (lit "intro" ++ [LF]) []
                   (lit "label") (lit "http://x") [] [] 3 _ _ _ _ _ _ _ _ _)); side.
Defined.

Lemma toggleLink_wiki_witness :
  toggleLink wikiHost wikiEditor
  = Some (Ok (mkLinkOutcome (mkEditor (lit "alias") 2 2) false)).
Proof.
  refine (proj1 (toggleLink_wiki wikiHost wikiEditor [] [] (lit "Page|alias")
                   (lit "alias") [] [] 4 _ _ _ _ _ _ _ _ _ _ _)); try side.
  right. exists (lit "Page"). repeat split; reflexivity.
Defined.

Lemma toggleStyle_comment_collapse_witness :
  exists ed',
    toggleStyle commentHost commentEditor "comment" = Ok ed'
    /\ doc ed' = lit "a note".
Proof.
  refine (toggleStyle_comment_collapse commentHost commentEditor commentSpan
            (lit "a ") 2 1 (lit "note") [] _ _ _ _ _ _ _); side.
Defined.

Lemma toggleStyle_twice_restores_witness :
  exists ed1,
    toggleStyle wordHost wordEditor "strong" = Ok ed1
    /\ head ed1 = 8
    /\ toggleStyle wrappedHost ed1 "strong" = Ok wordEditor.
Proof.
  refine (toggleStyle_twice_restores wordHost wrappedHost wordEditor [] (lit "say ")
            (lit "word") (lit " now") [] "strong" (lit "**") (lit "**") 2
            (mkSpan (formattingOf "strong") 4 6 (lit "**"))
            (mkSpan [cmClass "strong"] 6 10 (lit "word"))
            (mkSpan (formattingOf "strong") 10 12 (lit "**"))
            _ _ _ _ _ _ _ _ _ _ _ _ _ _ _); side.
Defined.

End MarkupMore.

(* ================================================================== *)
(** ** The heading toggle, footnotes and folding *)
(* ================================================================== *)

Section HeadingFacts.
Import Markup.

Lemma headingPrefix_level n m text :
  isPrefix (headingPrefix n) (repeat "#"%char m ++ " "%char :: text)
  = Nat.eqb n m.
Proof.
  unfold headingPrefix. revert m. induction n as [|n IH]; intros [|m]; cbn;
    try reflexivity.
  apply IH.
Qed.

(** X16: on a line that starts with [m] hashes and a space,
    [toggleHeading] with a level of at least one asks the host for
    level zero when the level is [m], and for the level itself
    otherwise. *)
Theorem toggleHeading_level ed top m text rest n :
  onLine ed top (repeat "#"%char m ++ " "%char :: text) rest ->
  len top <= head ed <= len top + len (repeat "#"%char m ++ " "%char :: text) ->
  (1 <= n)%nat ->
  toggleHeading ed (Some n) = if Nat.eqb n m then O else n.
Proof.
  intros Hline Hhead Hn. unfold toggleHeading.
  rewrite (getCursor_onLine ed top _ rest Hline Hhead). cbn [line].
  rewrite (getLine_onLine ed top _ rest Hline), headingPrefix_level.
  destruct n; [lia | reflexivity].
Qed.

Lemma toggleHeading_level_witness :
  toggleHeading headingEditor (Some 2%nat) = 0%nat
  /\ toggleHeading headingEditor (Some 3%nat) = 3%nat.
Proof.
  split.
  - refine (toggleHeading_level headingEditor [] 2 (lit "Title") [] 2 _ _ _);
      [unfold onLine; repeat split; reflexivity
      | vm_compute; intuition discriminate
      | lia].
  - refine (toggleHeading_level headingEditor [] 2 (lit "Title") [] 3 _ _ _);
      [unfold onLine; repeat split; reflexivity
      | vm_compute; intuition discriminate
      | lia].
Defined.

(** X17: the footnote post-processor turns a link text in square
    brackets into the text between them, whatever that text holds. *)
Theorem stripFootnote_brackets t :
  stripFootnote (lit "[" ++ t ++ lit "]") = t.
Proof.
  unfold stripFootnote, startsWith, endsWith.
  rewrite isPrefix_app, !rev_app_distr.
  cbn [lit list_ascii_of_string rev app isPrefix].
  rewrite Ascii.eqb_refl. cbn [andb].
  unfold slice, relIndex.
  assert (Hl : len ("["%char :: t ++ ["]"%char]) = len t + 2).
  { unfold len. cbn [List.length]. rewrite length_app. cbn. lia. }
  rewrite Hl. pose proof (len_nonneg t).
  change (1 <? 0) with false. change (-1 <? 0) with true. cbv iota.
  rewrite Z.min_l, Z.max_l by lia.
  change (Z.to_nat 1) with 1%nat. cbn [skipn].
  replace (Z.to_nat (len t + 2 + -1 - 1)) with (List.length t) by (unfold len; lia).
  rewrite firstn_app, Nat.sub_diag, firstn_all. cbn [firstn]. apply app_nil_r.
Qed.

End HeadingFacts.

Section FoldFacts.
Import Listeners.

Lemma scanUp_block level before acc :
  scanUp level before acc
  = indicatorsOf (rev (takeWhile (fun l => Nat.ltb level (getLevel l)) before))
    ++ acc.
Proof.
  revert acc. induction before as [|l before IH]; intros acc; [reflexivity|].
  cbn [scanUp takeWhile]. destruct (Nat.ltb level (getLevel l)); [|reflexivity].
  rewrite IH. cbn [rev]. unfold indicatorsOf. rewrite flat_map_app. cbn [flat_map].
  unfold withIndicator. rewrite <- app_assoc.
  destruct (indicator l); reflexivity.
Qed.

Lemma scanDown_block level lines acc :
  scanDown level lines acc
  = acc ++ indicatorsOf (takeWhile (fun l => Nat.ltb level (getLevel l)) lines).
Proof.
  revert acc. induction lines as [|l lines IH]; intros acc.
  - cbn. now rewrite app_nil_r.
  - cbn [scanDown takeWhile]. destruct (Nat.ltb level (getLevel l)).
    + rewrite IH. unfold withIndicator, indicatorsOf. cbn [flat_map].
      destruct (indicator l); [now rewrite <- app_assoc | reflexivity].
    + cbn. now rewrite app_nil_r.
Qed.

Lemma filter_all {A} (f : A -> bool) l :
  existsb (fun x => negb (f x)) l = false -> filter f l = l.
Proof.
  induction l as [|x l IH]; [reflexivity|]. cbn. intros H.
  apply orb_false_iff in H. destruct H as [Hx H].
  apply negb_false_iff in Hx. rewrite Hx. now rewrite IH.
Qed.

(** X18: [foldSublists] looks at the fold indicators of the unbroken
    run of lines around the clicked one that are deeper than the clicked
    indent, in document order; it clicks the expanded ones when there is
    one, and all of them when all are collapsed. *)
Theorem foldSublists_clicks i before current after :
  let subLists := indicatorsOf (deeperBlock (i + 1) before current after) in
  foldSublists (mkTarget (Some i) (Some (before, current, after)))
  = if existsb (fun l => negb (isCollapsed l)) subLists
    then filter (fun l => negb (isCollapsed l)) subLists
    else subLists.
Proof.
  intros subLists. unfold foldSublists. cbn [indexInParent cmLine].
  assert (Hsub : scanDown (i + 1) (current :: after) (scanUp (i + 1) before [])
                 = subLists).
  { rewrite scanDown_block, scanUp_block, app_nil_r.
    unfold subLists, deeperBlock, indicatorsOf. now rewrite flat_map_app. }
  rewrite Hsub. clearbody subLists. clear Hsub.
  destruct subLists as [|x l]; [reflexivity|].
  destruct (existsb (fun l0 => negb (isCollapsed l0)) (x :: l)) eqn:Ex.
  - apply filter_ext. intros a. now destruct (isCollapsed a).
  - rewrite <- (filter_all isCollapsed (x :: l) Ex) at 2.
    apply filter_ext. intros a. now destruct (isCollapsed a).
Qed.

End FoldFacts.
